(** * BAroQUe METS validation: a shallow embedding of [baroque/utils.py] and
    [baroque/mets_validation.py], with the properties of the rule engine. *)

From Stdlib Require Import NArith Ascii String.
From stdpp Require Import base option list gmap sorting pretty.

Local Open Scope N_scope.

(** ** Python strings

    A Python [str] is a sequence of Unicode code points; a code point is a
    number.  Literals of the source are written with [lit], which reads an
    ASCII literal byte by byte; the three non-ASCII characters of
    [sanitize_text] are given by their code points. *)

Abbreviation str := (list N).

Definition lit (s : string) : str := N_of_ascii <$> list_ascii_of_string s.

Definition LF : N := 10.
Definition SPACE : N := 32.
Definition QUOTE : N := 34.          (* straight double quote *)
Definition AMPERSAND : N := 38.      (* ampersand *)
Definition APOSTROPHE : N := 39.     (* apostrophe *)
Definition HYPHEN : N := 45.         (* hyphen *)
Definition SEMICOLON : N := 59.      (* semicolon *)
Definition LDQUOTE : N := 8220.      (* U+201C, left double quotation mark *)
Definition RDQUOTE : N := 8221.      (* U+201D, right double quotation mark *)
Definition ELLIPSIS : N := 8230.     (* U+2026, horizontal ellipsis *)

(** [str.isspace] on one character, which is also what [\s] matches in a
    [str] pattern: the characters whose bidirectional class is WS, B or S or
    whose category is Zs. *)
Definition isspace (c : N) : bool :=
  ((9 <=? c) && (c <=? 13)) || ((28 <=? c) && (c <=? 32))
  || (c =? 133) || (c =? 160) || (c =? 5760)
  || ((8192 <=? c) && (c <=? 8202))
  || (c =? 8232) || (c =? 8233) || (c =? 8239) || (c =? 8287) || (c =? 12288).

(** [s.startswith(old)] *)
Fixpoint startswith (old s : str) : bool :=
  match old, s with
  | [], _ => true
  | _ :: _, [] => false
  | a :: old', c :: s' => (a =? c) && startswith old' s'
  end.

(** [s.replace(old, new)] for a non-empty [old]: the occurrences are found
    from the left and do not overlap.  [skip] counts the characters of a
    match that are still to be passed over. *)
Fixpoint replace_from (old new : str) (skip : nat) (s : str) : str :=
  match s with
  | [] => []
  | c :: s' =>
      match skip with
      | S k => replace_from old new k s'
      | O =>
          if startswith old s
          then new ++ replace_from old new (length old - 1) s'
          else c :: replace_from old new 0 s'
      end
  end.

(** [s.replace(old, new)]; with an empty [old] Python puts [new] before every
    character and at the end. *)
Definition replace (old new s : str) : str :=
  match old with
  | [] => new ++ flat_map (fun c => c :: new) s
  | _ :: _ => replace_from old new 0 s
  end.

(** [re.sub] of the pattern [\s+] by one space: every maximal run of
    whitespace becomes one space.  [in_run] tells that the previous character was whitespace. *)
Fixpoint sub_spaces (in_run : bool) (s : str) : str :=
  match s with
  | [] => []
  | c :: s' =>
      if isspace c
      then (if in_run then sub_spaces true s' else SPACE :: sub_spaces true s')
      else c :: sub_spaces false s'
  end.

(** [s.lstrip()] and [s.strip()] *)
Fixpoint lstrip (s : str) : str :=
  match s with
  | [] => []
  | c :: s' => if isspace c then lstrip s' else s
  end.

Definition strip (s : str) : str := reverse (lstrip (reverse (lstrip s))).

(** ** utils.py *)

Definition sanitize_text (text : option str) : str :=
  match text with
  | None => []
  | Some text =>
      let text := replace [LF] [SPACE] text in
      let text := sub_spaces false text in
      let text := replace [QUOTE] []
                    (replace [RDQUOTE] [QUOTE] (replace [LDQUOTE] [QUOTE] text)) in
      let text := replace [APOSTROPHE] [] text in
      let text := replace [HYPHEN] [] text in
      let text := replace [SEMICOLON] [] text in
      let text := replace [ELLIPSIS] [] text in
      let text := replace [AMPERSAND] (lit "and") text in
      let text := strip text in
      text
  end.

(** ** Python built-ins used by the validator *)

(** [a <= b] on [str]: lexicographic on code points. *)
Fixpoint str_leb (a b : str) : bool :=
  match a, b with
  | [], _ => true
  | _ :: _, [] => false
  | x :: a', y :: b' =>
      if x <? y then true else if x =? y then str_leb a' b' else false
  end.

Definition str_le (a b : str) : Prop := str_leb a b = true.

#[global] Instance str_le_dec a b : Decision (str_le a b).
Proof. unfold str_le. apply _. Defined.

(** [sorted(l)] on a list of [str]. *)
Definition sorted (l : list str) : list str := merge_sort str_le l.

(** [sep.join(l)] *)
Fixpoint join (sep : str) (l : list str) : str :=
  match l with
  | [] => []
  | [x] => x
  | x :: l' => x ++ sep ++ join sep l'
  end.

(** [os.path.join(a, b)] of posixpath. *)
Definition os_path_join (a b : str) : str :=
  if startswith (lit "/") b then b
  else if bool_decide (a = []) || startswith (lit "/") (reverse a) then a ++ b
  else a ++ lit "/" ++ b.

(** [s[:-1]] *)
Definition drop_last (s : str) : str := take (length s - 1) s.

(** The exceptions that the modelled code can meet. *)
Inductive exn :=
  | SystemExit | TypeError | AttributeError | KeyError | IndexError
  | SyntaxError | XMLSyntaxError | OSError.

#[global] Instance exn_eq_dec : EqDecision exn.
Proof. solve_decision. Defined.

(** [sorted(l)] on a list whose members are [str] or [None]: sorting compares
    every member of a list of two or more, and a comparison with [None]
    raises [TypeError]. *)
Definition sorted_opt (l : list (option str)) : exn + list (option str) :=
  match mapM id l with
  | Some strs => inr (Some <$> sorted strs)
  | None => if decide (length l ≤ 1)%nat then inr l else inl TypeError
  end.

(** ** Findings and the sink *)

Inductive severity := Error | Warning.

#[global] Instance severity_eq_dec : EqDecision severity.
Proof. solve_decision. Defined.

Record finding := Finding {
  f_severity : severity;
  f_path : str;
  f_item : str;
  f_message : str
}.

#[global] Instance finding_eq_dec : EqDecision finding.
Proof. solve_decision. Defined.

(** What a run of the validator acts on: the findings recorded so far, oldest
    first, and the lines printed. *)
Record world := World {
  sink : list finding;
  stdout : list str
}.

Inductive outcome (A : Type) :=
  | Return (a : A)
  | Raise (e : exn).
Arguments Return {A} a.
Arguments Raise {A} e.

(** A method of the validator: from a world to a result, or an exception, and
    the world it leaves. *)
Definition M (A : Type) : Type := world -> outcome A * world.

Definition ret {A} (a : A) : M A := fun w => (Return a, w).

Definition bind {A B} (m : M A) (k : A -> M B) : M B :=
  fun w =>
    match m w with
    | (Return a, w') => k a w'
    | (Raise e, w') => (Raise e, w')
    end.

Definition raise {A} (e : exn) : M A := fun w => (Raise e, w).

Notation "'do' x <- m ; k" := (bind m (fun x => k))
  (at level 10, x name, m at level 100, k at level 200).
Notation "'do' ' pat <- m ; k" := (bind m (fun x => match x with pat => k end))
  (at level 10, pat pattern, m at level 100, k at level 200).
Notation "m ;; k" := (bind m (fun _ => k))
  (at level 100, k at level 200, right associativity).

(** A value or an exception, lifted into a method. *)
Definition lift {A} (r : exn + A) : M A :=
  match r with
  | inl e => raise e
  | inr a => ret a
  end.

(** [for x in l: acc = body(x, acc)] *)
Fixpoint for_each {A B} (l : list A) (acc : B) (body : A -> B -> M B) : M B :=
  match l with
  | [] => ret acc
  | x :: l' => do acc' <- body x acc; for_each l' acc' body
  end.

(** Modelled from the spec: the sink operations [error] and [warn] of the
    base class BaroqueValidator, which is not among the sources.  Each call
    records one finding (path, item id, message) and returns nothing. *)
Definition error (path item message : str) : M unit :=
  fun w => (Return tt, World (sink w ++ [Finding Error path item message]) (stdout w)).

Definition warn (path item message : str) : M unit :=
  fun w => (Return tt, World (sink w ++ [Finding Warning path item message]) (stdout w)).

(** [print(line)] *)
Definition print (line : str) : M unit :=
  fun w => (Return tt, World (sink w) (stdout w ++ [line])).

(** [sys.exit()] raises [SystemExit]. *)
Definition sys_exit {A} : M A := raise SystemExit.

Definition errors (w : world) : list finding :=
  filter (fun f => f_severity f = Error) (sink w).

Definition warnings (w : world) : list finding :=
  filter (fun f => f_severity f = Warning) (sink w).

(** ** The parsed document

    An lxml element: its tag in Clark notation ([{uri}local]), its
    attributes, its namespace map (prefix to URI), the text before its first
    child, and its child elements in document order. *)
#[local] Unset Elimination Schemes.
Inductive element := Element {
  tag : str;
  attrib : gmap str str;
  nsmap : gmap str str;
  text : option str;
  children : list element
}.
#[local] Set Elimination Schemes.

(** The namespace table of the module, in the order it is written. *)
Definition namespaces : list (str * str) :=
  [ (lit "mets", lit "http://www.loc.gov/METS/");
    (lit "dc", lit "http://purl.org/dc/elements/1.1");
    (lit "aes", lit "http://www.aes.org/audioObject");
    (lit "ph", lit "http://www.aes.org/processhistory");
    (lit "mods", lit "http://www.loc.gov/mods/v3");
    (lit "xlink", lit "http://www.w3.org/1999/xlink") ].

(** A path expression of the source: where it starts ([/a/b], [a/b] or
    [./a/b]) and its steps, each a prefix and a local name.  [path_str]
    gives back the text that the source passes and prints. *)
Inductive origin := Absolute | Relative | Dotted.

Record path := Path {
  path_origin : origin;
  path_steps : list (str * str)
}.

Definition step_str (st : str * str) : str := st.1 ++ lit ":" ++ st.2.

Definition path_str (p : path) : str :=
  match path_origin p with
  | Absolute => lit "/"
  | Relative => []
  | Dotted => lit "./"
  end ++ join (lit "/") (step_str <$> path_steps p).

Definition mets_ (name : string) : str * str := (lit "mets", lit name).
Definition dc_ (name : string) : str * str := (lit "dc", lit name).
Definition aes_ (name : string) : str * str := (lit "aes", lit name).

(** The prefix of a step looked up in a prefix table. *)
Fixpoint prefix_uri (table : list (str * str)) (prefix : str) : option str :=
  match table with
  | [] => None
  | (p, uri) :: table' =>
      if bool_decide (p = prefix) then Some uri else prefix_uri table' prefix
  end.

(** The tag that a step selects, with the module's [namespaces]. *)
Definition clark (st : str * str) : option str :=
  uri ← prefix_uri namespaces st.1;
  Some (lit "{" ++ uri ++ lit "}" ++ st.2).

Definition children_named (name : str) (e : element) : list element :=
  filter (fun c => tag c = name) (children e).

(** The elements reached from [es] along the tags [names], in document
    order. *)
Fixpoint descend (names : list str) (es : list element) : list element :=
  match names with
  | [] => es
  | name :: names' => descend names' (es ≫= children_named name)
  end.

(** [element.findall(path, namespaces=namespaces)], for the relative paths
    of the source; an unknown prefix is a [SyntaxError]. *)
Definition findall (e : element) (p : path) : exn + list element :=
  match mapM clark (path_steps p) with
  | Some names => inr (descend names [e])
  | None => inl SyntaxError
  end.

(** [element.find(path, namespaces=namespaces)]: the first match, or
    [None]. *)
Definition find (e : element) (p : path) : exn + option element :=
  match findall e p with
  | inr es => inr (head es)
  | inl err => inl err
  end.

(** [tree.xpath(path, namespaces=namespaces)], for the absolute paths of the
    source: the first step selects the root element. *)
Definition xpath (root : element) (p : path) : exn + list element :=
  match mapM clark (path_steps p) with
  | Some [] => inr []
  | Some (name :: names) =>
      inr (descend names (filter (fun e => tag e = name) [root]))
  | None => inl SyntaxError
  end.

(** ** The project, as the loader hands it over *)

Record item := Item {
  i_id : str;
  i_path : str;
  i_files : gmap str (list str)
}.

Record project := Project {
  items : list item;
  item_metadata_table : gmap str (gmap str str)
}.

(** The attributes of a [MetsValidator] that its methods read.  [tree] is
    [None] until a document has been parsed. *)
Record validator := Validator {
  v_project : project;
  item_id : str;
  item_files : gmap str (list str);
  item_metadata : option (gmap str str);
  path_to_mets : str;
  tree : option element
}.

(** [d[key]] on a dict: a missing key raises [KeyError]. *)
Definition getitem {V} (d : gmap str V) (key : string) : M V :=
  match d !! lit key with
  | Some v => ret v
  | None => raise KeyError
  end.

(** Truth value of [d.get(key)] for a dict of strings: the key is there and
    its value is not empty. *)
Definition truthy_get (d : gmap str str) (key : string) : bool :=
  match d !! lit key with
  | Some (_ :: _) => true
  | _ => false
  end.

(** Truth value of an optional dict: [None] and the empty dict are false. *)
Definition truthy_dict (d : option (gmap str str)) : bool :=
  match d with
  | Some m => bool_decide (m ≠ ∅)
  | None => false
  end.

(** ** mets_validation.py *)

Section MetsValidator.

(** What the libraries around the validator provide: the date parser
    [dateparser.parse], which gives a date or [None]; [repr] on a string,
    used when a list is formatted into a message; and [etree.parse], which
    reads the file at a path and gives its root element or raises. *)
Context {date : Type} `{EqDecision date}.
Variable dateparser_parse : str -> option date.
Variable repr : str -> str.
Variable etree_parse : str -> exn + element.

(** [repr] of a member that is a string or [None], and the text of a list
    in a formatted message. *)
Definition repr_opt (x : option str) : str :=
  match x with
  | Some s => repr s
  | None => lit "None"
  end.

Definition format_list (l : list (option str)) : str :=
  lit "[" ++ join (lit ", ") (repr_opt <$> l) ++ lit "]".

Definition check_tag_text (self : validator) (tag_ : element)
    (argument : str) (value : option str) : M unit :=
  let tag_text := sanitize_text (text tag_) in
  let value := sanitize_text value in
  if bool_decide (argument = lit "Is") then
    if bool_decide (tag_text ≠ value) then
      error (path_to_mets self) (item_id self)
        (tag_text ++ lit " text does not equal " ++ value
           ++ lit " value in " ++ tag tag_)
    else ret tt
  else ret tt.

Definition check_tag_attrib_exists (self : validator) (tag_ : element)
    (attribute : str) : M bool :=
  match attrib tag_ !! attribute with
  | None =>
      error (path_to_mets self) (item_id self)
        (attribute ++ lit " attribute does not exists in " ++ tag tag_);;
      ret false
  | Some _ => ret true
  end.

(** [tag.attrib.get(attribute) != value]; when they differ the message is
    built by concatenation, which raises [TypeError] on a [None]. *)
Definition check_tag_attrib_equals (self : validator) (tag_ : element)
    (attribute : str) (value : option str) : M unit :=
  if bool_decide (attrib tag_ !! attribute ≠ value) then
    match attrib tag_ !! attribute, value with
    | Some actual, Some value =>
        error (path_to_mets self) (item_id self)
          (actual ++ lit " in " ++ attribute
             ++ lit " attribute does not equal " ++ value
             ++ lit " value in " ++ tag tag_)
    | _, _ => raise TypeError
    end
  else ret tt.

Definition check_tag_attrib (self : validator) (tag_ : element)
    (attribute argument : str) (value : option str) : M unit :=
  if bool_decide (argument = lit "Exists") then
    check_tag_attrib_exists self tag_ attribute;; ret tt
  else if bool_decide (argument = lit "Is") then
    do exists_ <- check_tag_attrib_exists self tag_ attribute;
    if exists_ then check_tag_attrib_equals self tag_ attribute value
    else ret tt
  else
    print (lit "unsupported argument " ++ argument
             ++ lit " for check_tag_attrib");;
    sys_exit.

(** [self.tree]; the attribute is not there before the first parse. *)
Definition get_tree (self : validator) : M element :=
  match tree self with
  | Some root => ret root
  | None => raise AttributeError
  end.

Definition check_element_exists (self : validator) (element_path : path)
    : M (option element * bool) :=
  do root <- get_tree self;
  do elements <- lift (xpath root element_path);
  match elements with
  | [] =>
      error (path_to_mets self) (item_id self)
        (lit "mets xml has no element " ++ path_str element_path);;
      ret (None, false)
  | [e] => ret (Some e, true)
  | _ :: _ :: _ =>
      error (path_to_mets self) (item_id self)
        (lit "mets xml has multiple " ++ path_str element_path
           ++ lit " elements");;
      ret (None, false)
  end.

(** [expected] is [None] for the default [False]; in the test
    [expected and ...] a count of zero is as false as the default. *)
Definition check_subelements_exist (self : validator) (e : element)
    (subelement_path : path) (expected : option nat)
    : M (list element * bool) :=
  do subelements <- lift (findall e subelement_path);
  let n := length subelements in
  let or_none : M (list element * bool) :=
    if bool_decide (n = 0%nat) then
      error (path_to_mets self) (item_id self)
        (lit "No " ++ path_str subelement_path
           ++ lit " subelements found in " ++ tag e);;
      ret (subelements, false)
    else ret (subelements, true) in
  match expected with
  | Some k =>
      if bool_decide (k ≠ 0%nat) && bool_decide (n ≠ k) then
        error (path_to_mets self) (item_id self)
          (lit (pretty n) ++ lit " " ++ path_str subelement_path
             ++ lit " subelements found in " ++ tag e
             ++ lit ", expected " ++ lit (pretty k));;
        ret (subelements, false)
      else or_none
  | None => or_none
  end.

(** [mets_date] is the text of an element and may be [None], which
    [dateparser.parse] refuses with a [TypeError].  The test on
    Undated/undated only passes: the comparison below runs in any case. *)
Definition check_dates (self : validator) (metadata_date : option str)
    (mets_date : option str) : M unit :=
  let metadata_date := sanitize_text metadata_date in
  (if bool_decide (metadata_date = lit "Undated")
      && bool_decide (mets_date = Some (lit "undated"))
   then ret tt else ret tt);;
  match mets_date with
  | None => raise TypeError
  | Some mets_date =>
      if bool_decide (dateparser_parse metadata_date
                        ≠ dateparser_parse mets_date)
         && bool_decide (dateparser_parse (drop_last metadata_date)
                           ≠ dateparser_parse mets_date)
      then
        error (path_to_mets self) (item_id self)
          (metadata_date ++ lit " date in metadata export does not equal "
             ++ mets_date ++ lit " date in mets")
      else ret tt
  end.

Definition check_subelement_exists (self : validator) (e : element)
    (subelement_path : path) : M (option element * bool) :=
  do subelement <- lift (find e subelement_path);
  match subelement with
  | None =>
      error (path_to_mets self) (item_id self)
        (lit "subelement " ++ path_str subelement_path
           ++ lit " not found in " ++ tag e);;
      ret (None, false)
  | Some sub => ret (Some sub, true)
  end.

(** An element that the source uses after its [exists] flag was tested. *)
Definition the {A} (x : option A) : M A :=
  match x with
  | Some a => ret a
  | None => raise AttributeError
  end.

(** [l[i]] *)
Definition index {A} (l : list A) (i : nat) : M A :=
  match l !! i with
  | Some a => ret a
  | None => raise IndexError
  end.

Definition validate_root_element (self : validator) : M unit :=
  do '(mets_element, exists_) <-
    check_element_exists self (Path Absolute [mets_ "mets"]);
  if exists_ : bool then
    do mets_element <- the mets_element;
    let mets_element_nsmap := nsmap mets_element in
    for_each namespaces tt (fun '(ns, namespace) _ =>
      if negb (bool_decide (mets_element_nsmap !! ns = Some namespace)) then
        error (path_to_mets self) (item_id self)
          (lit "mets xml is missing the following namespace: "
             ++ ns ++ lit ":" ++ namespace)
      else ret tt);;
    check_tag_attrib self mets_element (lit "OBJID") (lit "Is")
      (Some (item_id self));;
    check_tag_attrib self mets_element (lit "TYPE") (lit "Is")
      (Some (lit "AUDIO RECORDING"))
  else ret tt.

(** The checks that [validate_mets_header] writes out for each of its three
    agents: the attributes of the agent, then the text of its name. *)
Definition check_agent (self : validator) (agent : element)
    (attribs : list (string * string)) (name : string) : M unit :=
  for_each attribs tt (fun '(attribute, value) _ =>
    check_tag_attrib self agent (lit attribute) (lit "Is")
      (Some (lit value)));;
  do '(agent_name, exists_) <-
    check_subelement_exists self agent (Path Relative [mets_ "name"]);
  if exists_ : bool then
    do agent_name <- the agent_name;
    check_tag_text self agent_name (lit "Is") (Some (lit name))
  else ret tt.

Definition validate_mets_header (self : validator) : M unit :=
  do '(mets_header, exists_) <-
    check_element_exists self (Path Absolute [mets_ "mets"; mets_ "metsHdr"]);
  if exists_ : bool then
    do mets_header <- the mets_header;
    check_tag_attrib self mets_header (lit "CREATEDATE") (lit "Exists") None;;
    do '(agents, exist_) <-
      check_subelements_exist self mets_header
        (Path Relative [mets_ "agent"]) (Some 3%nat);
    if exist_ : bool then
      do mediapreserve_agent <- index agents 0;
      check_agent self mediapreserve_agent
        [("ROLE", "OTHER")]%string "The MediaPreserve";;
      do bhl_preservation_agent <- index agents 1;
      check_agent self bhl_preservation_agent
        [("ROLE", "PRESERVATION"); ("TYPE", "ORGANIZATION")]%string
        "University of Michigan, Bentley Historical Library";;
      do bhl_disseminator_agent <- index agents 2;
      check_agent self bhl_disseminator_agent
        [("ROLE", "DISSEMINATOR"); ("TYPE", "ORGANIZATION")]%string
        "University of Michigan, Bentley Historical Library"
    else ret tt
  else ret tt.

Definition validate_descriptive_metadata (self : validator) : M unit :=
  do '(descriptive_metadata, exists_) <-
    check_element_exists self (Path Absolute [mets_ "mets"; mets_ "dmdSec"]);
  if exists_ : bool then
    do descriptive_metadata <- the descriptive_metadata;
    if truthy_dict (item_metadata self) then
      do metadata <- the (item_metadata self);
      do '(mdWrap, exists_) <-
        check_subelement_exists self descriptive_metadata
          (Path Relative [mets_ "mdWrap"]);
      if exists_ : bool then
        do mdWrap <- the mdWrap;
        check_tag_attrib self mdWrap (lit "MDTYPE") (lit "Is")
          (Some (lit "DC"));;
        check_tag_attrib self mdWrap (lit "LABEL") (lit "Is")
          (Some (lit "Dublin Core Metadata"));;
        do '(xmlData, exists_) <-
          check_subelement_exists self mdWrap (Path Relative [mets_ "xmlData"]);
        if exists_ : bool then
          do xmlData <- the xmlData;
          (if truthy_get metadata "item_title" then
             do '(dc_title, exists_) <-
               check_subelement_exists self xmlData (Path Relative [dc_ "title"]);
             if exists_ : bool then
               do dc_title <- the dc_title;
               do item_title <- getitem metadata "item_title";
               check_tag_text self dc_title (lit "Is") (Some item_title)
             else ret tt
           else
             warn (path_to_mets self) (item_id self)
               (lit "item title not found in metadata export spreadsheet to validate against mets xml"));;
          (if truthy_get metadata "collection_title" then
             do '(dc_relation, exists_) <-
               check_subelement_exists self xmlData
                 (Path Relative [dc_ "relation"]);
             if exists_ : bool then
               do dc_relation <- the dc_relation;
               do collection_title <- getitem metadata "collection_title";
               check_tag_text self dc_relation (lit "Is") (Some collection_title)
             else ret tt
           else
             warn (path_to_mets self) (item_id self)
               (lit "collection title not found in metadata export spreadsheet to validate against mets xml"));;
          do '(dc_identifier, exists_) <-
            check_subelement_exists self xmlData
              (Path Relative [dc_ "identifier"]);
          (if exists_ : bool then
             do dc_identifier <- the dc_identifier;
             check_tag_text self dc_identifier (lit "Is") (Some (item_id self))
           else ret tt);;
          (if truthy_get metadata "item_date" then
             do '(dc_date, exists_) <-
               check_subelement_exists self xmlData (Path Relative [dc_ "date"]);
             if exists_ : bool then
               do dc_date <- the dc_date;
               do item_date <- getitem metadata "item_date";
               check_dates self (Some item_date) (text dc_date)
             else ret tt
           else
             warn (path_to_mets self) (item_id self)
               (lit "item date not found in metadata export spreadsheet to validate against mets xml"));;
          check_subelement_exists self xmlData (Path Relative [dc_ "format"]);;
          check_subelements_exist self xmlData
            (Path Relative [dc_ "format.extent"]) None;;
          ret tt
        else ret tt
      else ret tt
    else
      warn (path_to_mets self) (item_id self)
        (lit "item has no associated metadata in the metadata export spreadsheet to validate against mets xml")
  else ret tt.

Definition validate_administrative_metadata (self : validator) : M unit :=
  do '(administrative_metadata, exists_) <-
    check_element_exists self (Path Absolute [mets_ "mets"; mets_ "amdSec"]);
  if exists_ : bool then
    do administrative_metadata <- the administrative_metadata;
    do wav <- getitem (item_files self) "wav";
    do mp3 <- getitem (item_files self) "mp3";
    let audio_files := wav ++ mp3 in
    do txt <- getitem (item_files self) "txt";
    let expected_files := audio_files ++ txt in
    do '(techMDs, exist_) <-
      check_subelements_exist self administrative_metadata
        (Path Relative [mets_ "techMD"]) (Some (length expected_files));
    (if exist_ : bool then
       do found_files <-
         for_each techMDs [] (fun techMD found_files =>
           do mdRef <- lift (find techMD (Path Relative [mets_ "mdRef"]));
           if bool_decide (mdRef = None :> option element) then
             do '(primary_identifier_element, exists_) <-
               check_subelement_exists self techMD
                 (Path Dotted [mets_ "mdWrap"; mets_ "xmlData";
                               aes_ "audioObject"; aes_ "primaryIdentifier"]);
             if exists_ : bool then
               do primary_identifier_element <- the primary_identifier_element;
               ret (found_files ++ [text primary_identifier_element])
             else ret found_files
           else ret found_files);
       do sorted_found <- lift (sorted_opt found_files);
       if bool_decide (sorted_found ≠ Some <$> sorted audio_files) then
         error (path_to_mets self) (item_id self)
           (lit "audio filenames found in amdSec/techMDs do not match files found in directory")
       else ret tt
     else ret tt);;
    check_subelement_exists self administrative_metadata
      (Path Relative [mets_ "sourceMD"]);;
    check_subelement_exists self administrative_metadata
      (Path Relative [mets_ "digiprovMD"]);;
    ret tt
  else ret tt.

Definition validate_file_section (self : validator) : M unit :=
  do '(file_section, exists_) <-
    check_element_exists self (Path Absolute [mets_ "mets"; mets_ "fileSec"]);
  if exists_ : bool then
    do file_section <- the file_section;
    do '(file_groups, exist_) <-
      check_subelements_exist self file_section
        (Path Relative [mets_ "fileGrp"]) (Some 2%nat);
    if exist_ : bool then
      let expected_ids := [lit "audio-files"; lit "media_images"] in
      do found_ids <-
        for_each file_groups [] (fun file_group found_ids =>
          let file_group_id := attrib file_group !! lit "ID" in
          let found_ids := found_ids ++ [file_group_id] in
          (if bool_decide (file_group_id = Some (lit "audio-files")) then
             check_subelements_exist self file_group
               (Path Relative [mets_ "fileGrp"]) (Some 3%nat);;
             ret tt
           else ret tt);;
          ret found_ids);
      do sorted_found <- lift (sorted_opt found_ids);
      if bool_decide (sorted_found ≠ Some <$> expected_ids) then
        error (path_to_mets self) (item_id self)
          (lit "mets xml fileGrp IDs " ++ format_list found_ids
             ++ lit " do not match expected "
             ++ format_list (Some <$> expected_ids))
      else ret tt
    else ret tt
  else ret tt.

(** [fptr.attrib.get(FILEID).replace(mdp., empty).strip()]: the attribute
    read with [get] is [None] when it is missing, and [None] has no
    [replace]. *)
Definition file_id_of (fptr : element) : M str :=
  match attrib fptr !! lit "FILEID" with
  | Some value => ret (strip (replace (lit "mdp.") [] value))
  | None => raise AttributeError
  end.

Definition validate_structural_map_section (self : validator) : M unit :=
  do '(structural_map_section, exists_) <-
    check_element_exists self (Path Absolute [mets_ "mets"; mets_ "structMap"]);
  if exists_ : bool then
    do structural_map_section <- the structural_map_section;
    do '(div_one, exists_) <-
      check_subelement_exists self structural_map_section
        (Path Relative [mets_ "div"]);
    if exists_ : bool then
      do div_one <- the div_one;
      do '(sub_divs, exist_) <-
        check_subelements_exist self div_one (Path Relative [mets_ "div"]) None;
      if exist_ : bool then
        do wav <- getitem (item_files self) "wav";
        do mp3 <- getitem (item_files self) "mp3";
        let expected_files := wav ++ mp3 in
        do file_pointers <-
          for_each sub_divs [] (fun sub_div file_pointers =>
            do fptrs <- lift (findall sub_div (Path Relative [mets_ "fptr"]));
            for_each fptrs file_pointers (fun fptr file_pointers =>
              do file_id <- file_id_of fptr;
              ret (file_pointers ++ [file_id])));
        if bool_decide (sorted file_pointers ≠ sorted expected_files) then
          error (path_to_mets self) (item_id self)
            (lit "mets structMap fileptr IDs "
               ++ format_list (Some <$> file_pointers)
               ++ lit " do not match expected "
               ++ format_list (Some <$> expected_files))
        else ret tt
      else ret tt
    else ret tt
  else ret tt.

(** The method sets the attributes of the validator and returns whether
    the document parsed; the bare [except] catches whatever [etree.parse]
    raises. *)
Definition parse_item_mets (self : validator) (it : item)
    : M (bool * validator) :=
  let path_to_item := i_path it in
  do xml <- getitem (i_files it) "xml";
  do mets <- index xml 0;
  let path := os_path_join path_to_item mets in
  let self :=
    {| v_project := v_project self;
       item_id := i_id it;
       item_files := i_files it;
       item_metadata := item_metadata_table (v_project self) !! i_id it;
       path_to_mets := path;
       tree := tree self |} in
  match etree_parse path with
  | inr root =>
      ret (true,
           {| v_project := v_project self;
              item_id := item_id self;
              item_files := item_files self;
              item_metadata := item_metadata self;
              path_to_mets := path_to_mets self;
              tree := Some root |})
  | inl _ =>
      error (path_to_mets self) (item_id self) (lit "mets xml is not valid");;
      ret (false, self)
  end.

(** The six validators, in the order [validate_mets] calls them. *)
Definition run_validators (self : validator) : M unit :=
  validate_root_element self;;
  validate_mets_header self;;
  validate_descriptive_metadata self;;
  validate_administrative_metadata self;;
  validate_file_section self;;
  validate_structural_map_section self.

(** The body of the loop of [validate_mets] for one item. *)
Definition validate_item (it : item) (self : validator) : M validator :=
  do xml <- getitem (i_files it) "xml";
  if bool_decide (xml = []) then ret self
  else
    do '(parsed, self) <- parse_item_mets self it;
    if parsed : bool then run_validators self;; ret self
    else ret self.

Definition validate_mets (self : validator) : M validator :=
  for_each (items (v_project self)) self validate_item.

End MetsValidator.

(** ** Vocabulary of the statements *)

(** The world after one more error, or one more warning, of a validator. *)
Definition add_error (self : validator) (message : str) (w : world) : world :=
  World (sink w ++ [Finding Error (path_to_mets self) (item_id self) message])
        (stdout w).

Definition add_warning (self : validator) (message : str) (w : world) : world :=
  World (sink w ++ [Finding Warning (path_to_mets self) (item_id self) message])
        (stdout w).

(** The FILEID attributes, present or not, of the fptr children of a list of
    div elements, in the order [validate_structural_map_section] visits
    them. *)
Definition fptr_tag : str := lit "{http://www.loc.gov/METS/}fptr".

Definition fptr_file_ids (sub_divs : list element) : list (option str) :=
  (fun fptr => attrib fptr !! lit "FILEID")
    <$> (sub_divs ≫= children_named fptr_tag).

(** The document of [self] has one structMap, whose first div has nested
    divs, and every fptr of those carries a FILEID: [raw] lists the values in
    document order. *)
Definition struct_map_fptrs (self : validator) (raw : list str) : Prop :=
  ∃ root struct_map div_one sub_divs,
    tree self = Some root
    ∧ xpath root (Path Absolute [mets_ "mets"; mets_ "structMap"])
      = inr [struct_map]
    ∧ find struct_map (Path Relative [mets_ "div"]) = inr (Some div_one)
    ∧ findall div_one (Path Relative [mets_ "div"]) = inr sub_divs
    ∧ sub_divs ≠ []
    ∧ fptr_file_ids sub_divs = Some <$> raw.

(** The wav and mp3 files of the item of [self], in the order the validator
    joins them. *)
Definition audio_files (self : validator) (files : list str) : Prop :=
  ∃ wav mp3,
    item_files self !! lit "wav" = Some wav
    ∧ item_files self !! lit "mp3" = Some mp3
    ∧ files = wav ++ mp3.

(** What the validator makes of a FILEID that is there. *)
Definition clean_file_id (value : str) : str :=
  strip (replace (lit "mdp.") [] value).

(** The reading of the FILEID rule in the specification: a leading [mdp.]
    is taken off, then the surrounding whitespace.  It is compared with
    [clean_file_id], which is what the source computes. *)
Definition strip_leading_mdp (value : str) : str :=
  strip (if startswith (lit "mdp.") value then drop 4 value else value).

(** The errors of the namespace loop of [validate_root_element]: one for each
    entry of [namespaces] that the namespace map does not carry. *)
Definition namespace_errors (self : validator) (root : element) : list finding :=
  (fun entry =>
     Finding Error (path_to_mets self) (item_id self)
       (lit "mets xml is missing the following namespace: "
          ++ entry.1 ++ lit ":" ++ entry.2))
    <$> filter (fun entry => nsmap root !! entry.1 ≠ Some entry.2) namespaces.


(** No two neighbouring characters of a string are both whitespace. *)
Fixpoint single_spaced (s : str) : bool :=
  match s with
  | a :: (b :: _) as s' => negb (isspace a && isspace b) && single_spaced s'
  | _ => true
  end.

(** The characters that [sanitize_text] deletes. *)
Definition deleted : list N :=
  [LDQUOTE; RDQUOTE; QUOTE; APOSTROPHE; HYPHEN; SEMICOLON; ELLIPSIS].

(** A text with nothing left for [sanitize_text] to do: no character that it
    deletes or replaces, no whitespace but the plain space, no two spaces in
    a row and none at either end. *)
Definition clean (s : str) : Prop :=
  Forall (fun c => (c ∉ deleted) ∧ c ≠ AMPERSAND) s
  ∧ Forall (fun c => isspace c = true → c = SPACE) s
  ∧ single_spaced s = true
  ∧ ∀ c, head s = Some c ∨ last s = Some c → isspace c = false.

(** A finding filed under the document and the item of a validator. *)
Definition attributed (self : validator) (f : finding) : Prop :=
  f_path f = path_to_mets self ∧ f_item f = item_id self.

(** A method that does nothing but record: from every world it leaves the
    findings that were there, followed by findings of its own that are filed
    under the document and the item of [self]; it leaves the printed lines
    as they were and does not end the process. *)
Definition records {A} (self : validator) (m : M A) : Prop :=
  ∀ w, ∃ new,
    (m w).2 = World (sink w ++ new) (stdout w)
    ∧ Forall (attributed self) new
    ∧ (m w).1 ≠ Raise SystemExit.

(** A finding filed under an item of the project and the first of its xml
    files. *)
Definition filed_under (it : item) (f : finding) : Prop :=
  ∃ first rest,
    i_files it !! lit "xml" = Some (first :: rest)
    ∧ f_path f = os_path_join (i_path it) first
    ∧ f_item f = i_id it.

(** The error that the loop of [validate_mets] records for an item whose
    document cannot be parsed; an item without xml files gets none. *)
Definition unparsable (it : item) : list finding :=
  match i_files it !! lit "xml" with
  | Some (first :: _) =>
      [Finding Error (os_path_join (i_path it) first) (i_id it)
         (lit "mets xml is not valid")]
  | _ => []
  end.

(** The root that [validate_root_element] asks for: a mets element that
    declares the six namespaces and carries the id of the item and the type
    of an audio recording. *)
Definition root_conforms (self : validator) : Prop :=
  ∃ root,
    tree self = Some root
    ∧ tag root = lit "{http://www.loc.gov/METS/}mets"
    ∧ Forall (fun entry => nsmap root !! entry.1 = Some entry.2) namespaces
    ∧ attrib root !! lit "OBJID" = Some (item_id self)
    ∧ attrib root !! lit "TYPE" = Some (lit "AUDIO RECORDING").

(** An agent of the header as [validate_mets_header] asks for it: the
    attributes have the values listed, and the first name child reads, once
    normalized, as the name does. *)
Definition agent_conforms (agent : element) (attribs : list (string * string))
    (name : string) : Prop :=
  Forall (fun '(attribute, value) =>
            attrib agent !! lit attribute = Some (lit value)) attribs
  ∧ ∃ agent_name,
      find agent (Path Relative [mets_ "name"]) = inr (Some agent_name)
      ∧ sanitize_text (text agent_name) = sanitize_text (Some (lit name)).

(** The header that [validate_mets_header] asks for: one metsHdr with a
    CREATEDATE and exactly three agents, which are the vendor, the
    preserving library and the disseminating library, in this order. *)
Definition header_conforms (self : validator) : Prop :=
  ∃ root header agent0 agent1 agent2,
    tree self = Some root
    ∧ xpath root (Path Absolute [mets_ "mets"; mets_ "metsHdr"]) = inr [header]
    ∧ is_Some (attrib header !! lit "CREATEDATE")
    ∧ findall header (Path Relative [mets_ "agent"])
      = inr [agent0; agent1; agent2]
    ∧ agent_conforms agent0 [("ROLE", "OTHER")]%string "The MediaPreserve"
    ∧ agent_conforms agent1
        [("ROLE", "PRESERVATION"); ("TYPE", "ORGANIZATION")]%string
        "University of Michigan, Bentley Historical Library"
    ∧ agent_conforms agent2
        [("ROLE", "DISSEMINATOR"); ("TYPE", "ORGANIZATION")]%string
        "University of Michigan, Bentley Historical Library".

(** The file section that [validate_file_section] asks for: one fileSec
    with two file groups, the audio files and the media images in either
    order, the audio group having three groups nested in it. *)
Definition audio_group (group : element) : Prop :=
  attrib group !! lit "ID" = Some (lit "audio-files")
  ∧ ∃ nested,
      findall group (Path Relative [mets_ "fileGrp"]) = inr nested
      ∧ length nested = 3%nat.

Definition images_group (group : element) : Prop :=
  attrib group !! lit "ID" = Some (lit "media_images").

Definition file_section_conforms (self : validator) : Prop :=
  ∃ root file_section group1 group2,
    tree self = Some root
    ∧ xpath root (Path Absolute [mets_ "mets"; mets_ "fileSec"])
      = inr [file_section]
    ∧ findall file_section (Path Relative [mets_ "fileGrp"])
      = inr [group1; group2]
    ∧ ((audio_group group1 ∧ images_group group2)
       ∨ (images_group group1 ∧ audio_group group2)).

(** The structural map that [validate_structural_map_section] asks for: the
    fptrs under the nested divs all carry a FILEID, and the identifiers made
    of them are the wav and mp3 files of the item, in any order. *)
Definition struct_map_conforms (self : validator) : Prop :=
  ∃ raw files,
    struct_map_fptrs self raw
    ∧ audio_files self files
    ∧ clean_file_id <$> raw ≡ₚ files.

(** What a techMD adds to the file names found by
    [validate_administrative_metadata]: nothing when it has an mdRef child,
    else the text of its primary identifier; [None] when it has neither. *)
Definition primary_identifier : path :=
  Path Dotted [mets_ "mdWrap"; mets_ "xmlData";
               aes_ "audioObject"; aes_ "primaryIdentifier"].

Definition tech_md_names (techMD : element) : option (list (option str)) :=
  match find techMD (Path Relative [mets_ "mdRef"]) with
  | inr (Some _) => Some []
  | inr None =>
      match find techMD primary_identifier with
      | inr (Some identifier) => Some [text identifier]
      | _ => None
      end
  | inl _ => None
  end.

(** The administrative metadata that [validate_administrative_metadata]
    asks for: one amdSec with as many techMDs as the item has wav, mp3 and
    txt files (at least one, when the item has no file), whose primary
    identifiers name the wav and mp3 files once each, and with a sourceMD
    and a digiprovMD. *)
Definition administrative_metadata_conforms (self : validator) : Prop :=
  ∃ root amd_sec wav mp3 txt techMDs found names,
    tree self = Some root
    ∧ xpath root (Path Absolute [mets_ "mets"; mets_ "amdSec"]) = inr [amd_sec]
    ∧ item_files self !! lit "wav" = Some wav
    ∧ item_files self !! lit "mp3" = Some mp3
    ∧ item_files self !! lit "txt" = Some txt
    ∧ findall amd_sec (Path Relative [mets_ "techMD"]) = inr techMDs
    ∧ techMDs ≠ []
    ∧ (wav ++ mp3 ++ txt ≠ [] → length techMDs = length (wav ++ mp3 ++ txt))
    ∧ mapM tech_md_names techMDs = Some found
    ∧ concat found = Some <$> names
    ∧ names ≡ₚ wav ++ mp3
    ∧ (∃ source, find amd_sec (Path Relative [mets_ "sourceMD"])
                 = inr (Some source))
    ∧ (∃ digiprov, find amd_sec (Path Relative [mets_ "digiprovMD"])
                   = inr (Some digiprov)).

(** A field of the metadata export is filled in, and the element of that
    name in the Dublin Core record reads, once normalized, as the field
    does. *)
Definition field_matches (metadata : gmap str str) (key : string)
    (xmlData : element) (name : string) : Prop :=
  ∃ value node,
    metadata !! lit key = Some value
    ∧ value ≠ []
    ∧ find xmlData (Path Relative [dc_ name]) = inr (Some node)
    ∧ sanitize_text (text node) = sanitize_text (Some value).

(** The date of the export and the date of the record agree for
    [check_dates]: one of the two parses of the export date gives what the
    parse of the record date gives. *)
Definition dates_agree {date} (dateparser_parse : str → option date)
    (metadata_date mets_date : str) : Prop :=
  ¬ (dateparser_parse (sanitize_text (Some metadata_date))
       ≠ dateparser_parse mets_date
     ∧ dateparser_parse (drop_last (sanitize_text (Some metadata_date)))
       ≠ dateparser_parse mets_date).

(** The descriptive metadata that [validate_descriptive_metadata] accepts
    without a word: the item has metadata with a title, a collection title
    and a date; the one dmdSec wraps a Dublin Core record whose title,
    relation, identifier and date agree with them and with the id of the
    item, and which has a format and at least one extent. *)
Definition descriptive_metadata_conforms {date}
    (dateparser_parse : str → option date) (self : validator) : Prop :=
  ∃ root dmd_sec metadata mdWrap xmlData,
    tree self = Some root
    ∧ xpath root (Path Absolute [mets_ "mets"; mets_ "dmdSec"]) = inr [dmd_sec]
    ∧ item_metadata self = Some metadata
    ∧ metadata ≠ ∅
    ∧ find dmd_sec (Path Relative [mets_ "mdWrap"]) = inr (Some mdWrap)
    ∧ attrib mdWrap !! lit "MDTYPE" = Some (lit "DC")
    ∧ attrib mdWrap !! lit "LABEL" = Some (lit "Dublin Core Metadata")
    ∧ find mdWrap (Path Relative [mets_ "xmlData"]) = inr (Some xmlData)
    ∧ field_matches metadata "item_title" xmlData "title"
    ∧ field_matches metadata "collection_title" xmlData "relation"
    ∧ (∃ node,
         find xmlData (Path Relative [dc_ "identifier"]) = inr (Some node)
         ∧ sanitize_text (text node) = sanitize_text (Some (item_id self)))
    ∧ (∃ item_date node mets_date,
         metadata !! lit "item_date" = Some item_date
         ∧ item_date ≠ []
         ∧ find xmlData (Path Relative [dc_ "date"]) = inr (Some node)
         ∧ text node = Some mets_date
         ∧ dates_agree dateparser_parse item_date mets_date)
    ∧ (∃ node, find xmlData (Path Relative [dc_ "format"]) = inr (Some node))
    ∧ (∃ extents,
         findall xmlData (Path Relative [dc_ "format.extent"]) = inr extents
         ∧ extents ≠ []).

(** A method whose new findings all satisfy [P]; the findings that were
    there stay in front of them. *)
Definition recording {A} (P : finding → Prop) (m : M A) : Prop :=
  ∀ w, ∃ new, sink (m w).2 = sink w ++ new ∧ Forall P new.

(** The four warnings of [validate_descriptive_metadata]. *)
Definition metadata_warnings : list str :=
  [ lit "item has no associated metadata in the metadata export spreadsheet to validate against mets xml";
    lit "item title not found in metadata export spreadsheet to validate against mets xml";
    lit "collection title not found in metadata export spreadsheet to validate against mets xml";
    lit "item date not found in metadata export spreadsheet to validate against mets xml" ].

(** ** Documents and items of the examples *)

Definition mets_tag (name : string) : str :=
  lit "{http://www.loc.gov/METS/}" ++ lit name.

Definition elem (name : string) (attributes : list (str * str))
    (kids : list element) : element :=
  Element (mets_tag name) (list_to_map attributes) ∅ None kids.

Definition example_files : gmap str (list str) :=
  list_to_map
    [ (lit "xml", [lit "mets.xml"]);
      (lit "wav", [lit "track01.wav"; lit "track02.wav"]);
      (lit "mp3", []);
      (lit "txt", []) ].

Definition example_validator (root : element) : validator :=
  {| v_project := Project [] ∅;
     item_id := lit "85429-SR-1";
     item_files := example_files;
     item_metadata := None;
     path_to_mets := lit "/project/85429-SR-1/mets.xml";
     tree := Some root |}.

Definition fptr (file_id : string) : element :=
  elem "fptr" [(lit "FILEID", lit file_id)] [].

Definition struct_map_doc (fptrs : list element) : element :=
  elem "mets" []
    [ elem "structMap" [] [ elem "div" [] [ elem "div" [] fptrs ] ] ].

Definition doc_no_dmd_sec : element := elem "mets" [] [].

Definition doc_one_dmd_sec : element :=
  elem "mets" [] [ elem "dmdSec" [] [ elem "mdWrap" [] [] ] ].

Definition doc_fptr_without_fileid : element :=
  struct_map_doc [ elem "fptr" [] [] ].

Definition doc_file_grp_without_id : element :=
  elem "mets" []
    [ elem "fileSec" []
        [ elem "fileGrp" [] [];
          elem "fileGrp" [(lit "ID", lit "media_images")] [] ] ].

Definition header_with_agents (n : nat) : element :=
  elem "metsHdr" [] (replicate n (elem "agent" [] [])).

Definition root_without_mods : element :=
  Element (mets_tag "mets")
    (list_to_map [ (lit "OBJID", lit "85429-SR-1");
                   (lit "TYPE", lit "AUDIO RECORDING") ])
    (list_to_map
       [ (lit "mets", lit "http://www.loc.gov/METS/");
         (lit "dc", lit "http://purl.org/dc/elements/1.1");
         (lit "aes", lit "http://www.aes.org/audioObject");
         (lit "ph", lit "http://www.aes.org/processhistory");
         (lit "xlink", lit "http://www.w3.org/1999/xlink") ])
    None [].

Definition example_item : item :=
  {| i_id := lit "85429-SR-1";
     i_path := lit "/project/85429-SR-1";
     i_files := example_files |}.

(** A root that declares the six namespaces, a header with its three
    agents, and a file section with its two groups. *)
Definition conforming_root (kids : list element) : element :=
  Element (mets_tag "mets")
    (list_to_map [ (lit "OBJID", lit "85429-SR-1");
                   (lit "TYPE", lit "AUDIO RECORDING") ])
    (list_to_map namespaces) None kids.

Definition agent (attributes : list (str * str)) (name : string) : element :=
  elem "agent" attributes
    [ Element (mets_tag "name") ∅ ∅ (Some (lit name)) [] ].

Definition conforming_header : element :=
  elem "metsHdr" [(lit "CREATEDATE", lit "2019-08-05T11:47:37.538-04:00")]
    [ agent [(lit "ROLE", lit "OTHER")] "The MediaPreserve";
      agent [(lit "ROLE", lit "PRESERVATION"); (lit "TYPE", lit "ORGANIZATION")]
        "University of Michigan, Bentley Historical Library";
      agent [(lit "ROLE", lit "DISSEMINATOR"); (lit "TYPE", lit "ORGANIZATION")]
        "University of Michigan,
         Bentley Historical Library" ].

Definition conforming_file_section : element :=
  elem "fileSec" []
    [ elem "fileGrp" [(lit "ID", lit "media_images")] [];
      elem "fileGrp" [(lit "ID", lit "audio-files")]
        (replicate 3 (elem "fileGrp" [] [])) ].

Definition conforming_struct_map : element :=
  elem "structMap" []
    [ elem "div" []
        [ elem "div" [] [fptr "mdp.track02.wav"];
          elem "div" [] [fptr "mdp.track01.wav"] ] ].

Definition dc_tag (name : string) : str :=
  lit "{http://purl.org/dc/elements/1.1}" ++ lit name.

Definition aes_tag (name : string) : str :=
  lit "{http://www.aes.org/audioObject}" ++ lit name.

Definition text_elem (tag_ : str) (content : string) : element :=
  Element tag_ ∅ ∅ (Some (lit content)) [].

Definition conforming_dmd_sec : element :=
  elem "dmdSec" []
    [ elem "mdWrap" [ (lit "MDTYPE", lit "DC");
                      (lit "LABEL", lit "Dublin Core Metadata") ]
        [ elem "xmlData" []
            [ text_elem (dc_tag "title") "Interview and music";
              text_elem (dc_tag "relation") "Oral history collection";
              text_elem (dc_tag "identifier") "85429-SR-1";
              text_elem (dc_tag "date") "2020";
              text_elem (dc_tag "format") "audio reel";
              text_elem (dc_tag "format.extent") "1 reel" ] ] ].

Definition tech_md (name : string) : element :=
  elem "techMD" []
    [ elem "mdWrap" []
        [ elem "xmlData" []
            [ Element (aes_tag "audioObject") ∅ ∅ None
                [ text_elem (aes_tag "primaryIdentifier") name ] ] ] ].

Definition conforming_amd_sec : element :=
  elem "amdSec" []
    [ tech_md "track02.wav"; tech_md "track01.wav";
      elem "sourceMD" [] []; elem "digiprovMD" [] [] ].

Definition conforming_document : element :=
  conforming_root
    [ conforming_header; conforming_dmd_sec; conforming_amd_sec;
      conforming_file_section; conforming_struct_map ].

Definition example_metadata : gmap str str :=
  list_to_map
    [ (lit "item_title", lit "Interview & music");
      (lit "collection_title", lit "Oral history collection");
      (lit "item_date", lit "2020") ].

Definition conforming_validator : validator :=
  {| v_project := Project [] ∅;
     item_id := lit "85429-SR-1";
     item_files := example_files;
     item_metadata := Some example_metadata;
     path_to_mets := lit "/project/85429-SR-1/mets.xml";
     tree := Some conforming_document |}.

(** A parser that finds every file missing, a date parser that understands
    nothing, and a [repr] that only adds the quotes. *)
Definition parse_missing_file (path : str) : exn + element := inl OSError.

(** A parser that reads the document with an fptr that has no FILEID. *)
Definition parse_fptr_without_fileid (path : str) : exn + element :=
  inr doc_fptr_without_fileid.

(** An item that has no xml file, and a project of three items. *)
Definition item_without_xml : item :=
  {| i_id := lit "85429-SR-3";
     i_path := lit "/project/85429-SR-3";
     i_files := list_to_map [ (lit "xml", []); (lit "wav", [lit "a.wav"]) ] |}.

Definition example_project : project :=
  Project [example_item; item_without_xml; example_item] ∅.

Definition project_validator (p : project) : validator :=
  {| v_project := p;
     item_id := [];
     item_files := ∅;
     item_metadata := None;
     path_to_mets := [];
     tree := None |}.
Definition parse_no_date (s : str) : option nat := None.
Definition repr_quoted (s : str) : str := lit "'" ++ s ++ lit "'".

(** A date parser that understands a year of four digits and nothing else. *)
Definition digit (c : N) : option N :=
  if (48 <=? c) && (c <=? 57) then Some (c - 48) else None.

Definition parse_year (s : str) : option N :=
  match s with
  | [a; b; c; d] =>
      a ← digit a; b ← digit b; c ← digit c; d ← digit d;
      Some (1000 * a + 100 * b + 10 * c + d)
  | _ => None
  end.







(** An item whose one audio file has [mdp.] inside its name, and a document
    that points to it with the prefix in front. *)
Definition mdp_inside_validator : validator :=
  {| v_project := Project [] ∅;
     item_id := lit "85429-SR-2";
     item_files :=
       list_to_map
         [ (lit "xml", [lit "mets.xml"]);
           (lit "wav", [lit "side.mdp.wav"]);
           (lit "mp3", []);
           (lit "txt", []) ];
     item_metadata := None;
     path_to_mets := lit "/project/85429-SR-2/mets.xml";
     tree := Some (struct_map_doc [fptr "mdp.side.mdp.wav"]) |}.

(** * Properties *)

(** ** Strings and sorting *)

Lemma str_leb_total a b : str_leb a b = true ∨ str_leb b a = true.
Proof.
  revert b. induction a as [|x a IH]; intros [|y b]; simpl; auto.
  destruct (N.ltb_spec x y), (N.ltb_spec y x); auto; try lia.
  assert (x = y) as -> by lia. rewrite N.eqb_refl. apply IH.
Qed.

Lemma str_leb_trans a b c :
  str_leb a b = true → str_leb b c = true → str_leb a c = true.
Proof.
  revert b c. induction a as [|x a IH]; intros [|y b] [|z c]; simpl; auto;
    try discriminate.
  destruct (N.ltb_spec x y), (N.ltb_spec y z), (N.ltb_spec x z);
    auto; try lia;
    destruct (N.eqb_spec x y), (N.eqb_spec y z), (N.eqb_spec x z);
    auto; try lia; try discriminate.
  apply IH.
Qed.

Lemma str_leb_antisym a b :
  str_leb a b = true → str_leb b a = true → a = b.
Proof.
  revert b. induction a as [|x a IH]; intros [|y b]; simpl; auto;
    try discriminate.
  destruct (N.ltb_spec x y), (N.ltb_spec y x); try lia; try discriminate;
    destruct (N.eqb_spec x y), (N.eqb_spec y x); try lia; try discriminate.
  intros. f_equal; auto.
Qed.

#[global] Instance str_le_total : Total str_le.
Proof. intros a b. apply str_leb_total. Qed.

#[global] Instance str_le_trans : Transitive str_le.
Proof. intros a b c. apply str_leb_trans. Qed.

#[global] Instance str_le_antisym : AntiSymm (=) str_le.
Proof. intros a b. apply str_leb_antisym. Qed.

Lemma sorted_Permutation l : sorted l ≡ₚ l.
Proof. apply merge_sort_Permutation. Qed.

Lemma sorted_eq_iff l1 l2 : sorted l1 = sorted l2 ↔ l1 ≡ₚ l2.
Proof.
  split.
  - intros E. rewrite <- (sorted_Permutation l1), E. apply sorted_Permutation.
  - intros P. apply (Sorted_unique str_le).
    + apply Sorted_merge_sort, _.
    + apply Sorted_merge_sort, _.
    + unfold sorted. by rewrite !merge_sort_Permutation.
Qed.

Lemma sorted_length l : length (sorted l) = length l.
Proof. apply Permutation_length, sorted_Permutation. Qed.

(** ** The text normalizer *)

Lemma replace_char c new s :
  replace [c] new s = flat_map (fun x => if c =? x then new else [x]) s.
Proof.
  unfold replace. induction s as [|x s IH]; [done|].
  simpl. rewrite andb_true_r. destruct (c =? x); simpl; by rewrite IH.
Qed.

Lemma replace_char_Forall (P : N → Prop) c new s :
  Forall P new → Forall (fun x => x ≠ c → P x) s → Forall P (replace [c] new s).
Proof.
  intros Hnew Hs. rewrite replace_char.
  induction Hs as [|x s Hx _ IH]; simpl; [constructor|].
  apply Forall_app. split; [|exact IH].
  destruct (N.eqb_spec c x) as [->|Hne]; [exact Hnew|].
  constructor; [|constructor]. apply Hx. congruence.
Qed.

Lemma replace_char_absent c new s : c ∉ s → replace [c] new s = s.
Proof.
  intros Hc. rewrite replace_char.
  induction s as [|x s IH]; [done|]. simpl.
  destruct (N.eqb_spec c x) as [->|Hne].
  - exfalso. apply Hc. by left.
  - simpl. f_equal. apply IH. intros H. apply Hc. by right.
Qed.

Lemma lstrip_suffix s : lstrip s `suffix_of` s.
Proof.
  induction s as [|c s IH]; simpl; [done|].
  destruct (isspace c); [|done]. by apply suffix_cons_r.
Qed.

Lemma lstrip_Forall (P : N → Prop) s : Forall P s → Forall P (lstrip s).
Proof.
  intros H. destruct (lstrip_suffix s) as [k Hk].
  rewrite Hk in H. by apply Forall_app in H as [_ H].
Qed.

Lemma strip_Forall (P : N → Prop) s : Forall P s → Forall P (strip s).
Proof.
  intros H. unfold strip.
  by apply Forall_reverse, lstrip_Forall, Forall_reverse, lstrip_Forall.
Qed.

Lemma lstrip_head s c : head (lstrip s) = Some c → isspace c = false.
Proof.
  induction s as [|x s IH]; simpl; [done|].
  destruct (isspace x) eqn:E; [exact IH|]. simpl. congruence.
Qed.

Lemma lstrip_nonspace_head c s : isspace c = false → lstrip (c :: s) = c :: s.
Proof. intros E. simpl. by rewrite E. Qed.

Lemma lstrip_last s c :
  last s = Some c → isspace c = false → last (lstrip s) = Some c.
Proof.
  intros Hl Hc. induction s as [|x s IH]; [done|]. simpl.
  destruct (isspace x) eqn:E; [|done].
  destruct s as [|y s]; [simpl in Hl; congruence|].
  apply IH. by rewrite last_cons_cons in Hl.
Qed.

Lemma strip_head s c : head (strip s) = Some c → isspace c = false.
Proof.
  unfold strip. intros H.
  destruct (lstrip (reverse (lstrip s))) as [|y t] eqn:E.
  { by rewrite reverse_nil in H. }
  assert (isspace y = false) as Hy.
  { apply (lstrip_head (reverse (lstrip s))). by rewrite E. }
  rewrite head_reverse in H.
  destruct (lstrip_suffix (reverse (lstrip s))) as [k Hk].
  rewrite E in Hk.
  assert (last (reverse (lstrip s)) = Some c) as Hl.
  { rewrite Hk, last_app, H. done. }
  rewrite last_reverse in Hl. by apply lstrip_head in Hl.
Qed.

Lemma strip_last s c : last (strip s) = Some c → isspace c = false.
Proof.
  unfold strip. rewrite last_reverse. apply lstrip_head.
Qed.

Lemma sub_spaces_only_space in_run s :
  Forall (fun c => isspace c = true → c = SPACE) (sub_spaces in_run s).
Proof.
  revert in_run. induction s as [|c s IH]; intros in_run; simpl; [constructor|].
  destruct (isspace c) eqn:E.
  - destruct in_run; [apply IH|]. constructor; [done|apply IH].
  - constructor; [congruence|apply IH].
Qed.

Lemma sub_spaces_true_head s c :
  head (sub_spaces true s) = Some c → isspace c = false.
Proof.
  induction s as [|x s IH]; simpl; [done|].
  destruct (isspace x) eqn:E; [exact IH|]. simpl. congruence.
Qed.

Lemma single_spaced_cons a t :
  single_spaced (a :: t)
  = match t with
    | [] => true
    | b :: _ => negb (isspace a && isspace b)
    end && single_spaced t.
Proof. by destruct t. Qed.

Lemma sub_spaces_single_spaced in_run s :
  single_spaced (sub_spaces in_run s) = true.
Proof.
  revert in_run. induction s as [|x s IH]; intros in_run; [done|].
  simpl sub_spaces. destruct (isspace x) eqn:E.
  - destruct in_run; [apply IH|].
    rewrite single_spaced_cons, IH, andb_true_r.
    destruct (sub_spaces true s) as [|b t] eqn:Es; [done|].
    rewrite (sub_spaces_true_head s b); [by rewrite andb_false_r|].
    by rewrite Es.
  - rewrite single_spaced_cons, IH, andb_true_r, E.
    by destruct (sub_spaces false s).
Qed.

Lemma single_spaced_app_inv k t :
  single_spaced (k ++ t) = true → single_spaced t = true.
Proof.
  induction k as [|a k IH]; [done|]. simpl app.
  rewrite single_spaced_cons. intros [_ H]%andb_true_iff. by apply IH.
Qed.

Lemma single_spaced_snoc s a :
  single_spaced (s ++ [a])
  = single_spaced s
    && match last s with
       | Some b => negb (isspace b && isspace a)
       | None => true
       end.
Proof.
  induction s as [|x s IH]; [done|].
  destruct s as [|y s].
  { simpl. by rewrite !andb_true_r. }
  change ((x :: y :: s) ++ [a]) with (x :: (y :: s) ++ [a]).
  rewrite single_spaced_cons. simpl app at 1.
  rewrite IH, last_cons_cons, (single_spaced_cons x (y :: s)).
  by rewrite andb_assoc.
Qed.

Lemma single_spaced_reverse s : single_spaced (reverse s) = single_spaced s.
Proof.
  induction s as [|a s IH]; [done|].
  rewrite reverse_cons, single_spaced_snoc, IH, last_reverse.
  rewrite single_spaced_cons, andb_comm.
  destruct s as [|b s]; [done|]. change (head (b :: s)) with (Some b).
  cbv beta iota. by rewrite (andb_comm (isspace b)).
Qed.

Lemma strip_single_spaced s :
  single_spaced s = true → single_spaced (strip s) = true.
Proof.
  intros H. unfold strip. rewrite single_spaced_reverse.
  destruct (lstrip_suffix (reverse (lstrip s))) as [k Hk].
  apply (single_spaced_app_inv k). rewrite <- Hk, single_spaced_reverse.
  destruct (lstrip_suffix s) as [k' Hk'].
  apply (single_spaced_app_inv k'). by rewrite <- Hk'.
Qed.

Lemma replace_ampersand_single_spaced s :
  single_spaced s = true →
  single_spaced (replace [AMPERSAND] (lit "and") s) = true.
Proof.
  rewrite replace_char.
  remember (fun x : N => if AMPERSAND =? x then lit "and" else [x]) as f eqn:Hf.
  assert (∀ x, f x = if AMPERSAND =? x then [97; 110; 100] else [x]) as Hfx.
  { intros x. by rewrite Hf. }
  clear Hf. induction s as [|x s IH]; [done|].
  rewrite single_spaced_cons. intros [Hx Hs]%andb_true_iff.
  specialize (IH Hs).
  change (flat_map f (x :: s)) with (f x ++ flat_map f s).
  rewrite Hfx. destruct (N.eqb_spec AMPERSAND x) as [<-|Hne].
  - change ([97; 110; 100] ++ flat_map f s)
      with (97 :: 110 :: 100 :: flat_map f s).
    rewrite !single_spaced_cons, IH.
    by destruct (flat_map f s).
  - change ([x] ++ flat_map f s) with (x :: flat_map f s).
    rewrite single_spaced_cons, IH, andb_true_r.
    destruct s as [|y s]; [done|].
    change (flat_map f (y :: s)) with (f y ++ flat_map f s).
    rewrite Hfx. destruct (N.eqb_spec AMPERSAND y) as [<-|_].
    + change ([97; 110; 100] ++ flat_map f s)
        with (97 :: 110 :: 100 :: flat_map f s).
      cbv beta iota. change (isspace 97) with false.
      by rewrite andb_false_r.
    + exact Hx.
Qed.

(** One more replacement of a character keeps what the earlier ones
    established and adds that the character is gone. *)
Ltac replaced H :=
  apply replace_char_Forall;
  [ repeat constructor; repeat split; done
  | eapply Forall_impl; [exact H|]; simpl; intros; intuition ].

(** The characters that [sanitize_text] takes out or replaces. *)
Lemma sanitize_text_removes text :
  Forall (fun c => c ≠ LDQUOTE ∧ c ≠ RDQUOTE ∧ c ≠ QUOTE ∧ c ≠ APOSTROPHE
                   ∧ c ≠ HYPHEN ∧ c ≠ SEMICOLON ∧ c ≠ ELLIPSIS
                   ∧ c ≠ AMPERSAND)
         (sanitize_text text).
Proof.
  destruct text as [text|]; [|constructor]. unfold sanitize_text.
  set (t0 := sub_spaces false _).
  apply strip_Forall.
  assert (Forall (fun c => c ≠ LDQUOTE) (replace [LDQUOTE] [QUOTE] t0)) as H1.
  { apply replace_char_Forall; [by repeat constructor|].
    apply Forall_forall. auto. }
  set (t1 := replace [LDQUOTE] _ _) in *.
  assert (Forall (fun c => c ≠ LDQUOTE ∧ c ≠ RDQUOTE)
            (replace [RDQUOTE] [QUOTE] t1)) as H2 by replaced H1.
  set (t2 := replace [RDQUOTE] _ _) in *.
  assert (Forall (fun c => c ≠ LDQUOTE ∧ c ≠ RDQUOTE ∧ c ≠ QUOTE)
            (replace [QUOTE] [] t2)) as H3 by replaced H2.
  set (t3 := replace [QUOTE] _ _) in *.
  assert (Forall (fun c => c ≠ LDQUOTE ∧ c ≠ RDQUOTE ∧ c ≠ QUOTE
                           ∧ c ≠ APOSTROPHE)
            (replace [APOSTROPHE] [] t3)) as H4 by replaced H3.
  set (t4 := replace [APOSTROPHE] _ _) in *.
  assert (Forall (fun c => c ≠ LDQUOTE ∧ c ≠ RDQUOTE ∧ c ≠ QUOTE
                           ∧ c ≠ APOSTROPHE ∧ c ≠ HYPHEN)
            (replace [HYPHEN] [] t4)) as H5 by replaced H4.
  set (t5 := replace [HYPHEN] _ _) in *.
  assert (Forall (fun c => c ≠ LDQUOTE ∧ c ≠ RDQUOTE ∧ c ≠ QUOTE
                           ∧ c ≠ APOSTROPHE ∧ c ≠ HYPHEN ∧ c ≠ SEMICOLON)
            (replace [SEMICOLON] [] t5)) as H6 by replaced H5.
  set (t6 := replace [SEMICOLON] _ _) in *.
  assert (Forall (fun c => c ≠ LDQUOTE ∧ c ≠ RDQUOTE ∧ c ≠ QUOTE
                           ∧ c ≠ APOSTROPHE ∧ c ≠ HYPHEN ∧ c ≠ SEMICOLON
                           ∧ c ≠ ELLIPSIS)
            (replace [ELLIPSIS] [] t6)) as H7 by replaced H6.
  set (t7 := replace [ELLIPSIS] _ _) in *.
  replaced H7.
Qed.

(** Every whitespace character that [sanitize_text] leaves is a plain
    space. *)
Lemma sanitize_text_only_spaces text :
  Forall (fun c => isspace c = true → c = SPACE) (sanitize_text text).
Proof.
  destruct text as [text|]; [|constructor]. unfold sanitize_text.
  apply strip_Forall.
  repeat (apply replace_char_Forall;
          [ repeat constructor; by vm_compute
          | eapply Forall_impl; [|by intros c Hc _; exact Hc] ]).
  apply sub_spaces_only_space.
Qed.

Lemma sanitize_text_trimmed text c :
  head (sanitize_text text) = Some c ∨ last (sanitize_text text) = Some c →
  isspace c = false.
Proof.
  destruct text as [text|]; [|by intros [?|?]]. unfold sanitize_text.
  intros [H|H]; [by apply strip_head in H|by apply strip_last in H].
Qed.

(** ** The primitives of the rule engine *)

Lemma pretty_3 : lit (pretty 3%nat) = lit "3".
Proof. reflexivity. Qed.

(** C3, as amended.  With three expected: three matching children come back
    with the flag set and nothing is recorded; any other number of them comes
    back too, all of them, with the flag cleared and one error that names
    the number found and the number expected. *)
Theorem check_subelements_exist_expected_three self e p subs w :
  findall e p = inr subs →
  (length subs = 3%nat →
   check_subelements_exist self e p (Some 3%nat) w = (Return (subs, true), w))
  ∧ (length subs ≠ 3%nat →
     check_subelements_exist self e p (Some 3%nat) w
     = (Return (subs, false),
        add_error self
          (lit (pretty (length subs)) ++ lit " " ++ path_str p
             ++ lit " subelements found in " ++ tag e ++ lit ", expected 3")
          w)).
Proof.
  intros Hf. unfold check_subelements_exist, bind, lift. rewrite Hf.
  cbn [ret]. split; intros Hn.
  - rewrite Hn. reflexivity.
  - rewrite (bool_decide_eq_true_2 _ Hn). reflexivity.
Qed.

Lemma check_tag_attrib_unsupported self tag_ attribute argument value w :
  argument ≠ lit "Exists" → argument ≠ lit "Is" →
  check_tag_attrib self tag_ attribute argument value w
  = (Raise SystemExit,
     World (sink w)
       (stdout w ++ [lit "unsupported argument " ++ argument
                       ++ lit " for check_tag_attrib"])).
Proof.
  intros H1 H2. unfold check_tag_attrib.
  rewrite (bool_decide_eq_false_2 _ H1), (bool_decide_eq_false_2 _ H2).
  reflexivity.
Qed.

Lemma check_tag_attrib_exists_only self tag_ attribute value w :
  check_tag_attrib self tag_ attribute (lit "Exists") value w
  = (Return tt,
     match attrib tag_ !! attribute with
     | Some _ => w
     | None =>
         add_error self
           (attribute ++ lit " attribute does not exists in " ++ tag tag_) w
     end).
Proof.
  unfold check_tag_attrib, check_tag_attrib_exists.
  rewrite bool_decide_eq_true_2 by done.
  unfold bind. by destruct (attrib tag_ !! attribute).
Qed.

Lemma check_tag_attrib_is self tag_ attribute value w :
  check_tag_attrib self tag_ attribute (lit "Is") value w
  = match attrib tag_ !! attribute with
    | Some _ => check_tag_attrib_equals self tag_ attribute value w
    | None =>
        (Return tt,
         add_error self
           (attribute ++ lit " attribute does not exists in " ++ tag tag_) w)
    end.
Proof.
  unfold check_tag_attrib, check_tag_attrib_exists.
  rewrite bool_decide_eq_false_2 by done.
  rewrite bool_decide_eq_true_2 by done.
  unfold bind. by destruct (attrib tag_ !! attribute).
Qed.

Lemma check_tag_attrib_is_equal self tag_ attribute value w :
  attrib tag_ !! attribute = Some value →
  check_tag_attrib self tag_ attribute (lit "Is") (Some value) w
  = (Return tt, w).
Proof.
  intros Ha. rewrite check_tag_attrib_is, Ha. unfold check_tag_attrib_equals.
  by rewrite Ha, bool_decide_eq_false_2 by (intros Hne; by apply Hne).
Qed.

(** C7.  An argument other than Exists and Is prints the complaint and
    raises [SystemExit] with nothing recorded; Exists only looks for the
    attribute; Is looks for it first and compares only when it is there. *)
Theorem check_tag_attrib_modes self tag_ attribute argument value w :
  (argument ≠ lit "Exists" → argument ≠ lit "Is" →
   check_tag_attrib self tag_ attribute argument value w
   = (Raise SystemExit,
      World (sink w)
        (stdout w ++ [lit "unsupported argument " ++ argument
                        ++ lit " for check_tag_attrib"])))
  ∧ (argument = lit "Exists" →
     check_tag_attrib self tag_ attribute argument value w
     = (Return tt,
        match attrib tag_ !! attribute with
        | Some _ => w
        | None =>
            add_error self
              (attribute ++ lit " attribute does not exists in " ++ tag tag_)
              w
        end))
  ∧ (argument = lit "Is" →
     check_tag_attrib self tag_ attribute argument value w
     = match attrib tag_ !! attribute with
       | Some _ => check_tag_attrib_equals self tag_ attribute value w
       | None =>
           (Return tt,
            add_error self
              (attribute ++ lit " attribute does not exists in " ++ tag tag_)
              w)
       end).
Proof.
  split; [|split].
  - apply check_tag_attrib_unsupported.
  - intros ->. apply check_tag_attrib_exists_only.
  - intros ->. apply check_tag_attrib_is.
Qed.

(** C10.  With an argument other than Is, [check_tag_text] returns and
    leaves the world as it was, where [check_tag_attrib] with such an
    argument (and not Exists) raises [SystemExit]. *)
Theorem check_tag_text_other_mode self tag_ attribute argument value w :
  argument ≠ lit "Is" →
  check_tag_text self tag_ argument value w = (Return tt, w)
  ∧ (argument ≠ lit "Exists" →
     (check_tag_attrib self tag_ attribute argument value w).1
     = Raise SystemExit).
Proof.
  intros H. split.
  - unfold check_tag_text. by rewrite (bool_decide_eq_false_2 _ H).
  - intros H'. by rewrite check_tag_attrib_unsupported.
Qed.

Section Properties.

Context {date : Type} `{EqDecision date}.
Variable dateparser_parse : str → option date.
Variable repr : str → str.
Variable etree_parse : str → exn + element.



(** *** Running the primitives *)

Lemma check_element_exists_run self p root w :
  tree self = Some root →
  check_element_exists self p w
  = match xpath root p with
    | inl e => (Raise e, w)
    | inr [] =>
        (Return (None, false),
         add_error self (lit "mets xml has no element " ++ path_str p) w)
    | inr [e] => (Return (Some e, true), w)
    | inr (_ :: _ :: _) =>
        (Return (None, false),
         add_error self
           (lit "mets xml has multiple " ++ path_str p ++ lit " elements") w)
    end.
Proof.
  intros Ht. unfold check_element_exists, get_tree, bind, lift. rewrite Ht.
  cbn [ret]. destruct (xpath root p) as [e|[|e [|e' els]]]; reflexivity.
Qed.

Lemma check_subelement_exists_run self e p w :
  check_subelement_exists self e p w
  = match find e p with
    | inl err => (Raise err, w)
    | inr None =>
        (Return (None, false),
         add_error self
           (lit "subelement " ++ path_str p ++ lit " not found in " ++ tag e)
           w)
    | inr (Some sub) => (Return (Some sub, true), w)
    end.
Proof.
  unfold check_subelement_exists, bind, lift.
  destruct (find e p) as [err|[sub|]]; reflexivity.
Qed.

Lemma check_subelements_exist_any self e p subs w :
  findall e p = inr subs →
  check_subelements_exist self e p None w
  = match subs with
    | [] =>
        (Return (subs, false),
         add_error self
           (lit "No " ++ path_str p ++ lit " subelements found in " ++ tag e)
           w)
    | _ :: _ => (Return (subs, true), w)
    end.
Proof.
  intros Hf. unfold check_subelements_exist, bind, lift. rewrite Hf.
  cbn [ret]. by destruct subs.
Qed.

Lemma findall_children e o st name :
  clark st = Some name →
  findall e (Path o [st]) = inr (children_named name e).
Proof.
  intros Hc. unfold findall. cbn [path_steps mapM]. rewrite Hc.
  cbn. by rewrite app_nil_r.
Qed.

(** C1, as amended.  For an item without metadata (no entry in the
    export, or an empty one) the validator first looks for the dmdSec: one
    dmdSec gives the warning alone, none or several give the error of the
    lookup alone. *)
Theorem validate_descriptive_metadata_no_metadata self root dmd_secs w :
  truthy_dict (item_metadata self) = false →
  tree self = Some root →
  xpath root (Path Absolute [mets_ "mets"; mets_ "dmdSec"]) = inr dmd_secs →
  validate_descriptive_metadata dateparser_parse self w
  = (Return tt,
     match dmd_secs with
     | [] =>
         add_error self
           (lit "mets xml has no element /mets:mets/mets:dmdSec") w
     | [_] =>
         add_warning self
           (lit "item has no associated metadata in the metadata export spreadsheet to validate against mets xml")
           w
     | _ :: _ :: _ =>
         add_error self
           (lit "mets xml has multiple /mets:mets/mets:dmdSec elements") w
     end).
Proof.
  intros Hm Ht Hx. unfold validate_descriptive_metadata, bind.
  rewrite (check_element_exists_run _ _ root) by done. rewrite Hx.
  destruct dmd_secs as [|d [|d' ds]]; try reflexivity.
  unfold the, ret. rewrite Hm. reflexivity.
Qed.

(** *** The root validator *)

Lemma namespace_loop self root l w :
  for_each l tt (fun '(ns, namespace) _ =>
    if negb (bool_decide (nsmap root !! ns = Some namespace)) then
      error (path_to_mets self) (item_id self)
        (lit "mets xml is missing the following namespace: "
           ++ ns ++ lit ":" ++ namespace)
    else ret tt) w
  = (Return tt,
     World (sink w
              ++ ((fun entry =>
                     Finding Error (path_to_mets self) (item_id self)
                       (lit "mets xml is missing the following namespace: "
                          ++ entry.1 ++ lit ":" ++ entry.2))
                    <$> filter (fun entry =>
                                  nsmap root !! entry.1 ≠ Some entry.2) l))
           (stdout w)).
Proof.
  revert w. induction l as [|[ns uri] l IH]; intros w.
  { cbn. rewrite app_nil_r. by destruct w. }
  cbn [for_each]. unfold bind at 1.
  rewrite filter_cons. cbn [fst snd].
  destruct (decide (nsmap root !! ns ≠ Some uri)) as [Hne|Heq].
  - rewrite (bool_decide_eq_false_2 _ Hne). cbn [negb]. unfold error at 1.
    rewrite IH. cbn [sink stdout fmap list_fmap].
    by rewrite <- app_assoc.
  - apply dec_stable in Heq.
    rewrite (bool_decide_eq_true_2 _ Heq). cbn [negb ret]. apply IH.
Qed.

Lemma filter_none (m : gmap str str) (l : list (str * str)) :
  (∀ k v, (k, v) ∈ l → m !! k = Some v) →
  filter (fun entry => m !! entry.1 ≠ Some entry.2) l = [].
Proof.
  induction l as [|[k v] l IH]; intros Hl; [done|].
  rewrite filter_cons. cbn [fst snd].
  rewrite decide_False.
  - apply IH. intros k' v' Hin. apply Hl. by right.
  - intros Hne. apply Hne, Hl. by left.
Qed.


Lemma xpath_root root st name :
  clark st = Some name →
  tag root = name →
  xpath root (Path Absolute [st]) = inr [root].
Proof.
  intros Hc Ht. unfold xpath. cbn [path_steps mapM]. rewrite Hc. cbn.
  by rewrite decide_True.
Qed.


(** *** Parsing the document of an item *)

(** C9.  Whatever [etree.parse] raises for the document of an item whose
    xml list is not empty, [parse_item_mets] catches it, records the one
    error [mets xml is not valid] under the path of the document and the
    id of the item, and answers false; the loop body of [validate_mets]
    then returns with that error alone: no validator has run and nothing is
    raised. *)
Theorem validate_item_parse_failure it self first rest e w :
  i_files it !! lit "xml" = Some (first :: rest) →
  etree_parse (os_path_join (i_path it) first) = inl e →
  let path := os_path_join (i_path it) first in
  let self' :=
    {| v_project := v_project self;
       item_id := i_id it;
       item_files := i_files it;
       item_metadata := item_metadata_table (v_project self) !! i_id it;
       path_to_mets := path;
       tree := tree self |} in
  let w' :=
    World (sink w ++ [Finding Error path (i_id it) (lit "mets xml is not valid")])
          (stdout w) in
  parse_item_mets etree_parse self it w = (Return (false, self'), w')
  ∧ validate_item dateparser_parse repr etree_parse it self w
    = (Return self', w').
Proof.
  intros Hxml Hparse path self' w'.
  assert (parse_item_mets etree_parse self it w = (Return (false, self'), w'))
    as Hrun.
  { unfold parse_item_mets, getitem, index, bind. rewrite Hxml.
    cbn [ret lookup list_lookup]. rewrite Hparse. reflexivity. }
  split; [exact Hrun|].
  unfold validate_item, getitem. unfold bind at 1. rewrite Hxml. cbn [ret].
  rewrite bool_decide_eq_false_2 by done.
  unfold bind at 1. rewrite Hrun. reflexivity.
Qed.

(** *** The structural map *)

Lemma for_each_app {A B} (l1 l2 : list A) (acc : B) (body : A → B → M B) w :
  for_each (l1 ++ l2) acc body w
  = (do acc' <- for_each l1 acc body; for_each l2 acc' body) w.
Proof.
  revert acc w. induction l1 as [|x l1 IH]; intros acc w; [done|].
  cbn [for_each app]. unfold bind.
  destruct (body x acc w) as [[acc'|err] w1]; [|done].
  rewrite IH. reflexivity.
Qed.

Lemma clark_fptr : clark (mets_ "fptr") = Some fptr_tag.
Proof. reflexivity. Qed.

(** The two nested loops over the divs and their fptrs are one loop over
    the fptrs in document order. *)
Lemma sub_div_loop sub_divs (acc : list str) w :
  for_each sub_divs acc (fun sub_div file_pointers =>
    do fptrs <- lift (findall sub_div (Path Relative [mets_ "fptr"]));
    for_each fptrs file_pointers (fun fptr file_pointers =>
      do file_id <- file_id_of fptr;
      ret (file_pointers ++ [file_id]))) w
  = for_each (sub_divs ≫= children_named fptr_tag) acc
      (fun fptr file_pointers =>
         do file_id <- file_id_of fptr;
         ret (file_pointers ++ [file_id])) w.
Proof.
  revert acc w. induction sub_divs as [|d ds IH]; intros acc w; [done|].
  cbn [for_each]. rewrite bind_cons, for_each_app.
  unfold bind. rewrite (findall_children _ _ _ _ clark_fptr).
  cbn [lift ret].
  destruct (for_each (children_named fptr_tag d) acc _ w) as [[acc'|err] w1];
    [|done].
  rewrite IH. reflexivity.
Qed.

Lemma fptr_loop fptrs raw (acc : list str) w :
  (fun fptr => attrib fptr !! lit "FILEID") <$> fptrs = Some <$> raw →
  for_each fptrs acc (fun fptr file_pointers =>
    do file_id <- file_id_of fptr;
    ret (file_pointers ++ [file_id])) w
  = (Return (acc ++ (clean_file_id <$> raw)), w).
Proof.
  revert raw acc w. induction fptrs as [|f fptrs IH]; intros raw acc w Hraw.
  { destruct raw; [|done]. cbn. by rewrite app_nil_r. }
  destruct raw as [|value raw]; [done|].
  rewrite !fmap_cons in Hraw. injection Hraw as Hf Hraw.
  cbn [for_each]. unfold bind at 1 2. unfold file_id_of. rewrite Hf.
  cbn [ret]. rewrite (IH raw) by done. rewrite <- app_assoc. reflexivity.
Qed.

Lemma validate_structural_map_section_run self raw files w :
  struct_map_fptrs self raw →
  audio_files self files →
  validate_structural_map_section repr self w
  = (Return tt,
     if bool_decide (sorted (clean_file_id <$> raw) ≠ sorted files) then
       add_error self
         (lit "mets structMap fileptr IDs "
            ++ format_list repr (Some <$> (clean_file_id <$> raw))
            ++ lit " do not match expected "
            ++ format_list repr (Some <$> files)) w
     else w).
Proof.
  intros (root & struct_map & div_one & sub_divs
          & Ht & Hx & Hfind & Hall & Hne & Hraw)
         (wav & mp3 & Hwav & Hmp3 & ->).
  unfold validate_structural_map_section. unfold bind at 1.
  rewrite (check_element_exists_run _ _ root) by done. rewrite Hx.
  unfold the. unfold bind at 1. cbn [ret]. unfold bind at 1.
  rewrite check_subelement_exists_run, Hfind.
  unfold bind at 1. cbn [ret]. unfold bind at 1.
  rewrite (check_subelements_exist_any _ _ _ sub_divs) by done.
  destruct sub_divs as [|d ds] eqn:Hds; [done|]. rewrite <- Hds in *.
  unfold getitem. unfold bind at 1. rewrite Hwav. cbn [ret].
  unfold bind at 1. rewrite Hmp3. cbn [ret].
  unfold bind at 1. rewrite sub_div_loop, (fptr_loop _ raw) by exact Hraw.
  rewrite app_nil_l. by destruct (bool_decide _).
Qed.

(** C5, as amended.  When every fptr under the nested divs carries a
    FILEID, the identifiers collected are the FILEID values with every
    occurrence of [mdp.] removed and the surrounding whitespace trimmed,
    and the one error of the validator is recorded exactly when their
    sorted list differs from the sorted wav and mp3 names.  So a document
    that passes still passes with its fptrs in any other order, and with
    one fptr taken out it gets that one error. *)
Theorem validate_structural_map_section_file_ids self raw files w :
  struct_map_fptrs self raw →
  audio_files self files →
  let found := clean_file_id <$> raw in
  let mismatch self found :=
    add_error self
      (lit "mets structMap fileptr IDs "
         ++ format_list repr (Some <$> found)
         ++ lit " do not match expected "
         ++ format_list repr (Some <$> files)) w in
  (sorted found ≠ sorted files →
   validate_structural_map_section repr self w
   = (Return tt, mismatch self found))
  ∧ (sorted found = sorted files →
     validate_structural_map_section repr self w = (Return tt, w)
     ∧ (∀ self' raw',
          struct_map_fptrs self' raw' → audio_files self' files →
          raw' ≡ₚ raw →
          validate_structural_map_section repr self' w = (Return tt, w))
     ∧ (∀ self' raw1 x raw2,
          raw = raw1 ++ x :: raw2 →
          struct_map_fptrs self' (raw1 ++ raw2) → audio_files self' files →
          validate_structural_map_section repr self' w
          = (Return tt, mismatch self' (clean_file_id <$> (raw1 ++ raw2))))).
Proof.
  intros Hs Hf found mismatch. split; [|intros Heq; split; [|split]].
  - intros Hne. rewrite (validate_structural_map_section_run _ raw files) by done.
    by rewrite (bool_decide_eq_true_2 _ Hne).
  - rewrite (validate_structural_map_section_run _ raw files) by done.
    rewrite bool_decide_eq_false_2; [done|]. intros Hne. by apply Hne.
  - intros self' raw' Hs' Hf' Hperm.
    rewrite (validate_structural_map_section_run _ raw' files) by done.
    rewrite bool_decide_eq_false_2; [done|]. intros Hne. apply Hne.
    rewrite <- Heq. apply sorted_eq_iff. by rewrite Hperm.
  - intros self' raw1 x raw2 -> Hs' Hf'.
    rewrite (validate_structural_map_section_run _ (raw1 ++ raw2) files)
      by done.
    rewrite bool_decide_eq_true_2; [done|]. intros Heq'.
    assert (length (sorted found) = length (sorted (clean_file_id <$> raw1 ++ raw2)))
      as Hlen by (by rewrite Heq, Heq').
    unfold found in Hlen.
    rewrite !sorted_length, !length_fmap, !length_app in Hlen.
    cbn [length] in Hlen. lia.
Qed.

End Properties.

(** ** The claims on the examples *)

(** C1: a document without dmdSec, for an item without metadata, gets the
    error of the lookup and no warning. *)
Lemma validate_descriptive_metadata_no_dmd_sec :
  let self := example_validator doc_no_dmd_sec in
  let w := (validate_descriptive_metadata parse_no_date self (World [] [])).2 in
  item_metadata self = None
  ∧ warnings w = []
  ∧ errors w
    = [Finding Error (path_to_mets self) (item_id self)
         (lit "mets xml has no element /mets:mets/mets:dmdSec")].
Proof. by vm_compute. Qed.

Lemma validate_descriptive_metadata_no_metadata_witness :
  let self := example_validator doc_one_dmd_sec in
  validate_descriptive_metadata parse_no_date self (World [] [])
  = (Return tt,
     add_warning self
       (lit "item has no associated metadata in the metadata export spreadsheet to validate against mets xml")
       (World [] [])).
Proof.
  exact (validate_descriptive_metadata_no_metadata parse_no_date
           (example_validator doc_one_dmd_sec) doc_one_dmd_sec
           [elem "dmdSec" [] [elem "mdWrap" [] []]] (World [] [])
           eq_refl eq_refl eq_refl).
Defined.

(** C2: an fptr without FILEID makes the structural-map validator raise
    [AttributeError], and a fileGrp without ID beside a named one makes the
    file-section validator raise [TypeError]; neither records anything. *)
Theorem validators_raise_on_missing_attributes :
  validate_structural_map_section repr_quoted
    (example_validator doc_fptr_without_fileid) (World [] [])
  = (Raise AttributeError, World [] [])
  ∧ validate_file_section repr_quoted
      (example_validator doc_file_grp_without_id) (World [] [])
    = (Raise TypeError, World [] []).
Proof. split; by vm_compute. Qed.

(** C3: with two agents where three are expected, the two agents come back,
    not an empty list. *)
Lemma check_subelements_exist_two_of_three :
  (check_subelements_exist (example_validator doc_no_dmd_sec)
     (header_with_agents 2) (Path Relative [mets_ "agent"]) (Some 3%nat)
     (World [] [])).1
  = Return ([elem "agent" [] []; elem "agent" [] []], false).
Proof. by vm_compute. Qed.

Lemma check_subelements_exist_expected_three_witness :
  check_subelements_exist (example_validator doc_no_dmd_sec)
    (header_with_agents 3) (Path Relative [mets_ "agent"]) (Some 3%nat)
    (World [] [])
  = (Return (replicate 3 (elem "agent" [] []), true), World [] []).
Proof.
  exact (proj1 (check_subelements_exist_expected_three
                  (example_validator doc_no_dmd_sec) (header_with_agents 3)
                  (Path Relative [mets_ "agent"])
                  (replicate 3 (elem "agent" [] [])) (World [] []) eq_refl)
               eq_refl).
Defined.



(** C5: a FILEID with [mdp.] in front and again inside loses both, so the
    identifier no longer names the file, where taking off the leading prefix
    alone would have matched. *)
Lemma validate_structural_map_section_mdp_inside :
  let self := mdp_inside_validator in
  let raw := [lit "mdp.side.mdp.wav"] in
  let files := [lit "side.mdp.wav"] in
  struct_map_fptrs self raw
  ∧ audio_files self files
  ∧ sorted (strip_leading_mdp <$> raw) = sorted files
  ∧ clean_file_id <$> raw = [lit "side.wav"]
  ∧ length (errors (validate_structural_map_section repr_quoted self
                      (World [] [])).2) = 1%nat.
Proof.
  repeat split; try by vm_compute.
  - eexists _, _, _, _. repeat split; try reflexivity. done.
  - by eexists _, _.
Qed.

Lemma validate_structural_map_section_file_ids_witness :
  let doc l := example_validator (struct_map_doc l) in
  let w := World [] [] in
  validate_structural_map_section repr_quoted
    (doc [fptr "mdp.track01.wav"; fptr " mdp.track02.wav "]) w
  = (Return tt, w)
  ∧ validate_structural_map_section repr_quoted
      (doc [fptr " mdp.track02.wav "; fptr "mdp.track01.wav"]) w
    = (Return tt, w)
  ∧ validate_structural_map_section repr_quoted (doc [fptr "mdp.track01.wav"]) w
    = (Return tt,
       add_error (doc [fptr "mdp.track01.wav"])
         (lit "mets structMap fileptr IDs ['track01.wav'] do not match expected ['track01.wav', 'track02.wav']")
         w).
Proof.
  intros doc w.
  pose (raw := [lit "mdp.track01.wav"; lit " mdp.track02.wav "]).
  pose (files := [lit "track01.wav"; lit "track02.wav"]).
  assert (∀ l, audio_files (doc l) files) as Hfiles.
  { intros l. by exists [lit "track01.wav"; lit "track02.wav"], []. }
  destruct (validate_structural_map_section_file_ids repr_quoted
              (doc [fptr "mdp.track01.wav"; fptr " mdp.track02.wav "])
              raw files w) as [_ Hpass].
  { eexists _, _, _, _. repeat split; try reflexivity. done. }
  { apply Hfiles. }
  destruct Hpass as (Hrun & Hperm & Hless); [by vm_compute|].
  split; [exact Hrun|split].
  - apply (Hperm _ [lit " mdp.track02.wav "; lit "mdp.track01.wav"]).
    + eexists _, _, _, _. repeat split; try reflexivity. done.
    + apply Hfiles.
    + apply perm_swap.
  - apply (Hless _ [lit "mdp.track01.wav"] (lit " mdp.track02.wav ") []).
    + reflexivity.
    + eexists _, _, _, _. repeat split; try reflexivity. done.
    + apply Hfiles.
Defined.


Lemma check_tag_attrib_modes_witness :
  let self := example_validator root_without_mods in
  check_tag_attrib self root_without_mods (lit "OBJID") (lit "Contains")
    (Some (lit "85429")) (World [] [])
  = (Raise SystemExit,
     World [] [lit "unsupported argument Contains for check_tag_attrib"])
  ∧ check_tag_attrib self root_without_mods (lit "CREATEDATE") (lit "Exists")
      None (World [] [])
    = (Return tt,
       add_error self
         (lit "CREATEDATE attribute does not exists in {http://www.loc.gov/METS/}mets")
         (World [] []))
  ∧ check_tag_attrib self root_without_mods (lit "TYPE") (lit "Is")
      (Some (lit "VIDEO RECORDING")) (World [] [])
    = (Return tt,
       add_error self
         (lit "AUDIO RECORDING in TYPE attribute does not equal VIDEO RECORDING value in {http://www.loc.gov/METS/}mets")
         (World [] [])).
Proof.
  intros self. split; [|split].
  - by apply (proj1 (check_tag_attrib_modes self root_without_mods
                       (lit "OBJID") (lit "Contains") (Some (lit "85429"))
                       (World [] []))).
  - by apply (proj1 (proj2 (check_tag_attrib_modes self root_without_mods
                              (lit "CREATEDATE") (lit "Exists") None
                              (World [] [])))).
  - by rewrite (proj2 (proj2 (check_tag_attrib_modes self root_without_mods
                                (lit "TYPE") (lit "Is")
                                (Some (lit "VIDEO RECORDING")) (World [] [])))).
Defined.

(** C8: the hyphen between two spaces goes after the whitespace was
    collapsed, and the two spaces around it stay. *)
Theorem sanitize_text_leaves_double_space :
  sanitize_text (Some (lit "a - b")) = lit "a  b"
  ∧ single_spaced (sanitize_text (Some (lit "a - b"))) = false.
Proof. split; reflexivity. Qed.

Lemma validate_item_parse_failure_witness :
  let self := example_validator doc_no_dmd_sec in
  validate_item parse_no_date repr_quoted parse_missing_file example_item self
    (World [] [])
  = (Return self,
     World [Finding Error (lit "/project/85429-SR-1/mets.xml")
              (lit "85429-SR-1") (lit "mets xml is not valid")] []).
Proof.
  exact (proj2 (validate_item_parse_failure parse_no_date repr_quoted
                  parse_missing_file example_item
                  (example_validator doc_no_dmd_sec) (lit "mets.xml") []
                  OSError (World [] []) eq_refl eq_refl)).
Defined.

Lemma check_tag_text_other_mode_witness :
  let self := example_validator root_without_mods in
  check_tag_text self root_without_mods (lit "Contains") (Some (lit "x"))
    (World [] [])
  = (Return tt, World [] [])
  ∧ (check_tag_attrib self root_without_mods (lit "TYPE") (lit "Contains")
       (Some (lit "x")) (World [] [])).1
    = Raise SystemExit.
Proof.
  intros self.
  destruct (check_tag_text_other_mode self root_without_mods (lit "TYPE")
              (lit "Contains") (Some (lit "x")) (World [] [])) as [Htext Hattr];
    [done|].
  split; [exact Htext|by apply Hattr].
Defined.

(** * Further properties *)

(** ** The text normalizer, stage by stage *)

Lemma sub_spaces_Forall (P : N → Prop) in_run s :
  P SPACE → Forall P s → Forall P (sub_spaces in_run s).
Proof.
  intros Hsp Hs. revert in_run.
  induction Hs as [|c s Hc _ IH]; intros in_run; simpl; [constructor|].
  destruct (isspace c); [destruct in_run|]; auto.
Qed.

Lemma deleted_absent c s :
  c ∈ deleted → Forall (fun x => x ∉ deleted) s → c ∉ s.
Proof.
  intros Hc Hs Hin. eapply Forall_forall in Hs; [|exact Hin]. by apply Hs.
Qed.

Lemma not_deleted c :
  c ≠ LDQUOTE ∧ c ≠ RDQUOTE ∧ c ≠ QUOTE ∧ c ≠ APOSTROPHE
  ∧ c ≠ HYPHEN ∧ c ≠ SEMICOLON ∧ c ≠ ELLIPSIS ∧ c ≠ AMPERSAND →
  (c ∉ deleted) ∧ c ≠ AMPERSAND.
Proof.
  intros (?&?&?&?&?&?&?&?). split; [|done]. unfold deleted.
  rewrite !elem_of_cons, elem_of_nil. intuition.
Qed.

(** Without a character to delete, the seven deleting stages do nothing. *)
Lemma sanitize_text_when_nothing_deleted text :
  Forall (fun c => c ∉ deleted) text →
  sanitize_text (Some text)
  = strip (replace [AMPERSAND] (lit "and")
             (sub_spaces false (replace [LF] [SPACE] text))).
Proof.
  intros Ht. unfold sanitize_text.
  set (t0 := sub_spaces false _).
  assert (Forall (fun c => c ∉ deleted) t0) as H0.
  { apply sub_spaces_Forall; [by compute_done|].
    apply replace_char_Forall; [by repeat constructor; compute_done|].
    eapply Forall_impl; [exact Ht|]. auto. }
  assert (∀ c new, c ∈ deleted → replace [c] new t0 = t0) as Hid.
  { intros c new Hc. by apply replace_char_absent, deleted_absent. }
  rewrite (Hid LDQUOTE), (Hid RDQUOTE), (Hid QUOTE), (Hid APOSTROPHE),
    (Hid HYPHEN), (Hid SEMICOLON), (Hid ELLIPSIS) by compute_done.
  reflexivity.
Qed.

Lemma sub_spaces_fixed in_run s :
  Forall (fun c => isspace c = true → c = SPACE) s →
  single_spaced s = true →
  (in_run = true → ∀ c, head s = Some c → isspace c = false) →
  sub_spaces in_run s = s.
Proof.
  intros Hs. revert in_run.
  induction Hs as [|c s Hc _ IH]; intros in_run Hsingle Hrun; [done|].
  rewrite single_spaced_cons in Hsingle. cbn [sub_spaces].
  destruct (isspace c) eqn:Ec.
  - destruct in_run.
    { specialize (Hrun eq_refl c eq_refl). congruence. }
    rewrite Hc by done. f_equal. destruct s as [|b t]; [done|].
    apply andb_true_iff in Hsingle as [Hb Hsingle].
    apply IH; [done|]. intros _ b' [= <-].
    by destruct (isspace b).
  - f_equal. destruct s as [|b t]; [done|].
    apply andb_true_iff in Hsingle as [_ Hsingle]. by apply IH.
Qed.

Lemma lstrip_fixed s :
  (∀ c, head s = Some c → isspace c = false) → lstrip s = s.
Proof.
  destruct s as [|c s]; [done|]. intros H. apply lstrip_nonspace_head.
  by apply H.
Qed.

Lemma strip_fixed s :
  (∀ c, head s = Some c ∨ last s = Some c → isspace c = false) →
  strip s = s.
Proof.
  intros H. unfold strip. rewrite (lstrip_fixed s) by auto.
  rewrite lstrip_fixed; [apply reverse_involutive|].
  intros c Hc. rewrite head_reverse in Hc. auto.
Qed.

Lemma sanitize_text_fixed s : clean s → sanitize_text (Some s) = s.
Proof.
  intros (Hdel & Hsp & Hsingle & Hends).
  rewrite sanitize_text_when_nothing_deleted
    by (eapply Forall_impl; [exact Hdel|]; by intros c [? _]).
  rewrite (replace_char_absent LF).
  2:{ intros Hin. eapply Forall_forall in Hsp; [|exact Hin].
      by specialize (Hsp eq_refl). }
  rewrite sub_spaces_fixed by done.
  rewrite (replace_char_absent AMPERSAND).
  2:{ intros Hin. eapply Forall_forall in Hdel; [|exact Hin].
      by destruct Hdel. }
  by apply strip_fixed.
Qed.

(** X1.  What every output of [sanitize_text] has: none of the characters that
    the function deletes or replaces, no whitespace other than the plain
    space, and no whitespace at either end. *)
Theorem sanitize_text_output text :
  let out := sanitize_text text in
  Forall (fun c => (c ∉ deleted) ∧ c ≠ AMPERSAND) out
  ∧ Forall (fun c => isspace c = true → c = SPACE) out
  ∧ ∀ c, head out = Some c ∨ last out = Some c → isspace c = false.
Proof.
  intros out. split; [|split].
  - eapply Forall_impl; [apply sanitize_text_removes|]. apply not_deleted.
  - apply sanitize_text_only_spaces.
  - intros c. apply sanitize_text_trimmed.
Qed.

(** X2.  A text that has none of the deleted characters comes out with no two
    spaces in a row: the double spaces of the output can only come from a
    deleted character between two whitespace runs. *)
Theorem sanitize_text_single_spaced text :
  Forall (fun c => c ∉ deleted) text →
  single_spaced (sanitize_text (Some text)) = true.
Proof.
  intros Ht. rewrite sanitize_text_when_nothing_deleted by done.
  apply strip_single_spaced, replace_ampersand_single_spaced,
    sub_spaces_single_spaced.
Qed.

Lemma sanitize_text_single_spaced_witness :
  single_spaced
    (sanitize_text (Some (lit "  Interview &  music
 side one "))) = true.
Proof.
  apply sanitize_text_single_spaced. compute_done.
Defined.

Lemma sanitize_text_nothing_deleted text :
  Forall (fun c => c ∉ deleted) (sanitize_text text).
Proof.
  eapply Forall_impl; [apply sanitize_text_removes|].
  intros c Hc. by apply not_deleted in Hc as [? _].
Qed.

Lemma sanitize_text_clean text :
  Forall (fun c => c ∉ deleted) text → clean (sanitize_text (Some text)).
Proof.
  intros Ht. repeat split.
  - eapply Forall_impl; [apply sanitize_text_removes|]. apply not_deleted.
  - apply sanitize_text_only_spaces.
  - rewrite sanitize_text_when_nothing_deleted by done.
    apply strip_single_spaced, replace_ampersand_single_spaced,
      sub_spaces_single_spaced.
  - apply sanitize_text_trimmed.
Qed.

(** X3.  The texts that [sanitize_text] gives back as they are, are the clean
    ones. *)
Theorem sanitize_text_fixed_points s : sanitize_text (Some s) = s ↔ clean s.
Proof.
  split; [|apply sanitize_text_fixed].
  intros Heq. rewrite <- Heq. apply sanitize_text_clean.
  rewrite <- Heq. apply sanitize_text_nothing_deleted.
Qed.

(** X4.  [sanitize_text] is not idempotent: a second pass changes what the
    first made of a hyphen between two spaces.  But two passes reach a fixed
    point: for every text the second output is clean, and a further pass
    gives it back. *)
Theorem sanitize_text_twice :
  sanitize_text (Some (sanitize_text (Some (lit "a - b"))))
  ≠ sanitize_text (Some (lit "a - b"))
  ∧ ∀ text,
      let twice := sanitize_text (Some (sanitize_text text)) in
      clean twice ∧ sanitize_text (Some twice) = twice.
Proof.
  split; [by vm_compute|].
  intros text twice.
  assert (clean twice) as Hclean
    by apply sanitize_text_clean, sanitize_text_nothing_deleted.
  split; [exact Hclean|by apply sanitize_text_fixed].
Qed.

(** ** What a validator leaves behind *)

Section Records.

Context {date : Type} `{EqDecision date}.
Variable dateparser_parse : str → option date.
Variable repr : str → str.
Variable self : validator.

Lemma records_ret {A} (a : A) : records self (ret a).
Proof.
  intros w. exists []. rewrite app_nil_r. by destruct w.
Qed.

Lemma records_raise {A} e : e ≠ SystemExit → records self (raise e : M A).
Proof.
  intros He w. exists []. rewrite app_nil_r. destruct w.
  split; [reflexivity|split; [constructor|]]. cbn. congruence.
Qed.

Lemma records_bind {A B} (m : M A) (k : A → M B) :
  records self m → (∀ a, records self (k a)) → records self (bind m k).
Proof.
  intros Hm Hk w. destruct (Hm w) as (new & Hw & Hnew & Hexit).
  unfold bind. destruct (m w) as [[a|e] w1]; cbn [fst snd] in *.
  - subst w1. destruct (Hk a (World (sink w ++ new) (stdout w)))
      as (new' & Hw' & Hnew' & Hexit').
    exists (new ++ new'). rewrite Hw'. cbn [sink stdout].
    rewrite app_assoc. split; [done|split; [by apply Forall_app|exact Hexit']].
  - exists new. split; [done|split; [done|]].
    intros [= ->]. by apply Hexit.
Qed.

Lemma records_error message :
  records self (error (path_to_mets self) (item_id self) message).
Proof.
  intros w. eexists [_]. split; [done|split; [by repeat constructor|done]].
Qed.

Lemma records_warn message :
  records self (warn (path_to_mets self) (item_id self) message).
Proof.
  intros w. eexists [_]. split; [done|split; [by repeat constructor|done]].
Qed.

Lemma records_lift {A} (r : exn + A) :
  r ≠ inl SystemExit → records self (lift r).
Proof.
  destruct r as [e|a]; intros Hr; [|apply records_ret].
  apply records_raise. congruence.
Qed.

Lemma records_for_each {A B} (l : list A) (acc : B) (body : A → B → M B) :
  (∀ x acc, records self (body x acc)) → records self (for_each l acc body).
Proof.
  intros Hbody. revert acc.
  induction l as [|x l IH]; intros acc; [apply records_ret|].
  cbn [for_each]. apply records_bind; auto.
Qed.

Lemma findall_exn e p err : findall e p = inl err → err = SyntaxError.
Proof. unfold findall. destruct (mapM _ _); congruence. Qed.

Lemma find_exn e p err : find e p = inl err → err = SyntaxError.
Proof.
  unfold find. destruct (findall e p) as [err'|] eqn:E; [|done].
  intros [= <-]. by apply findall_exn in E.
Qed.

Lemma xpath_exn root p err : xpath root p = inl err → err = SyntaxError.
Proof. unfold xpath. destruct (mapM _ _) as [[|]|]; congruence. Qed.

Lemma sorted_opt_exn l err : sorted_opt l = inl err → err = TypeError.
Proof.
  unfold sorted_opt. destruct (mapM _ _); [done|].
  destruct (decide _); congruence.
Qed.

Lemma records_findall {A} e p (k : list element → M A) :
  (∀ es, records self (k es)) → records self (bind (lift (findall e p)) k).
Proof.
  intros Hk. apply records_bind; [|done]. apply records_lift.
  intros Hr. by apply findall_exn in Hr.
Qed.

Lemma records_find {A} e p (k : option element → M A) :
  (∀ o, records self (k o)) → records self (bind (lift (find e p)) k).
Proof.
  intros Hk. apply records_bind; [|done]. apply records_lift.
  intros Hr. by apply find_exn in Hr.
Qed.

Lemma records_sorted_opt {A} l (k : list (option str) → M A) :
  (∀ o, records self (k o)) → records self (bind (lift (sorted_opt l)) k).
Proof.
  intros Hk. apply records_bind; [|done]. apply records_lift.
  intros Hr. by apply sorted_opt_exn in Hr.
Qed.

Lemma records_the {A} (x : option A) : records self (the x).
Proof. destruct x; [apply records_ret|by apply records_raise]. Qed.

Lemma records_index {A} (l : list A) i : records self (index l i).
Proof.
  unfold index. destruct (l !! i); [apply records_ret|by apply records_raise].
Qed.

Lemma records_getitem {V} (d : gmap str V) key : records self (getitem d key).
Proof.
  unfold getitem.
  destruct (d !! lit key); [apply records_ret|by apply records_raise].
Qed.

Ltac records_step :=
  first
    [ apply records_ret
    | apply records_error
    | apply records_warn
    | apply records_the
    | apply records_index
    | apply records_getitem
    | apply records_raise; discriminate
    | apply records_findall; intros ?
    | apply records_find; intros ?
    | apply records_sorted_opt; intros ?
    | apply records_for_each; intros ? ?
    | apply records_bind; [|intros ?]
    | match goal with
      | |- records _ (match ?x with _ => _ end) => destruct x
      | |- records _ ((match ?x with _ => _ end) _) => destruct x
      end
    | progress cbv beta zeta ].

Lemma records_check_tag_text tag_ argument value :
  records self (check_tag_text self tag_ argument value).
Proof. unfold check_tag_text. repeat records_step. Qed.

Lemma records_check_tag_attrib_exists tag_ attribute :
  records self (check_tag_attrib_exists self tag_ attribute).
Proof. unfold check_tag_attrib_exists. repeat records_step. Qed.

Lemma records_check_tag_attrib_equals tag_ attribute value :
  records self (check_tag_attrib_equals self tag_ attribute value).
Proof. unfold check_tag_attrib_equals. repeat records_step. Qed.

Lemma records_check_tag_attrib_is tag_ attribute value :
  records self (check_tag_attrib self tag_ attribute (lit "Is") value).
Proof.
  unfold check_tag_attrib.
  rewrite bool_decide_eq_false_2, bool_decide_eq_true_2 by done.
  apply records_bind; [apply records_check_tag_attrib_exists|].
  intros [|]; [apply records_check_tag_attrib_equals|apply records_ret].
Qed.

Lemma records_check_tag_attrib_exists_only tag_ attribute value :
  records self (check_tag_attrib self tag_ attribute (lit "Exists") value).
Proof.
  unfold check_tag_attrib. rewrite bool_decide_eq_true_2 by done.
  apply records_bind; [apply records_check_tag_attrib_exists|].
  intros _. apply records_ret.
Qed.

Lemma records_check_element_exists p :
  records self (check_element_exists self p).
Proof.
  unfold check_element_exists, get_tree.
  apply records_bind; [destruct (tree self); repeat records_step|].
  intros root. apply records_bind.
  - apply records_lift. intros Hr. by apply xpath_exn in Hr.
  - intros els. repeat records_step.
Qed.

Lemma records_check_subelements_exist e p expected :
  records self (check_subelements_exist self e p expected).
Proof. unfold check_subelements_exist. repeat records_step. Qed.

Lemma records_check_subelement_exists e p :
  records self (check_subelement_exists self e p).
Proof. unfold check_subelement_exists. repeat records_step. Qed.

Lemma records_check_dates metadata_date mets_date :
  records self (check_dates dateparser_parse self metadata_date mets_date).
Proof. unfold check_dates. repeat records_step. Qed.

Ltac records_call :=
  first
    [ apply records_check_tag_text
    | apply records_check_tag_attrib_is
    | apply records_check_tag_attrib_exists_only
    | apply records_check_element_exists
    | apply records_check_subelements_exist
    | apply records_check_subelement_exists
    | apply records_check_dates
    | records_step ].

Lemma records_check_agent agent attribs name :
  records self (check_agent self agent attribs name).
Proof. unfold check_agent. repeat records_call. Qed.

Lemma records_validate_root_element :
  records self (validate_root_element self).
Proof. unfold validate_root_element. repeat records_call. Qed.

Lemma records_validate_mets_header :
  records self (validate_mets_header self).
Proof.
  unfold validate_mets_header.
  repeat first [apply records_check_agent | records_call].
Qed.

Lemma records_validate_descriptive_metadata :
  records self (validate_descriptive_metadata dateparser_parse self).
Proof. unfold validate_descriptive_metadata. repeat records_call. Qed.

Lemma records_validate_administrative_metadata :
  records self (validate_administrative_metadata self).
Proof. unfold validate_administrative_metadata. repeat records_call. Qed.

Lemma records_validate_file_section :
  records self (validate_file_section repr self).
Proof. unfold validate_file_section. repeat records_call. Qed.

Lemma records_validate_structural_map_section :
  records self (validate_structural_map_section repr self).
Proof.
  unfold validate_structural_map_section, file_id_of. repeat records_call.
Qed.

(** *** Runs without a finding *)

Lemma world_grown w new :
  World (sink w ++ new) (stdout w) = w → new = [].
Proof.
  destruct w as [s o]. cbn. intros [= Hs].
  apply (f_equal length) in Hs. rewrite length_app in Hs.
  destruct new; [done|]. cbn in Hs. lia.
Qed.

Lemma add_error_neq message w : add_error self message w ≠ w.
Proof. intros H. by apply world_grown in H. Qed.

Lemma error_not_silent {A} (a b : outcome A) message w :
  (a, add_error self message w) = (b, w) → False.
Proof. intros [= _ Hw]. by apply add_error_neq in Hw. Qed.

Lemma add_warning_neq message w : add_warning self message w ≠ w.
Proof. intros H. by apply world_grown in H. Qed.

Lemma records_from_grown {A} (m : M A) new w r :
  records self m → m (World (sink w ++ new) (stdout w)) = (r, w) → new = [].
Proof.
  intros Hm Hrun.
  destruct (Hm (World (sink w ++ new) (stdout w))) as (new' & Hw & _ & _).
  rewrite Hrun in Hw. cbn [snd sink stdout] in Hw.
  rewrite <- app_assoc in Hw. symmetry in Hw. apply world_grown in Hw.
  by apply app_eq_nil in Hw as [-> _].
Qed.

Lemma world_same w : World (sink w ++ []) (stdout w) = w.
Proof. rewrite app_nil_r. by destruct w. Qed.

Lemma bind_silent {A B} (m : M A) (k : A → M B) a w r :
  m w = (Return a, w) → k a w = r → bind m k w = r.
Proof. intros Hm Hk. unfold bind. by rewrite Hm. Qed.

(** When a sequence of recording methods leaves the world as it was, so did
    its first part, and so did the rest. *)
Lemma silent_bind {A B} (m : M A) (k : A → M B) b w :
  records self m → (∀ a, records self (k a)) →
  bind m k w = (Return b, w) →
  ∃ a, m w = (Return a, w) ∧ k a w = (Return b, w).
Proof.
  intros Hm Hk. unfold bind.
  destruct (Hm w) as (new & Hw & _ & _).
  destruct (m w) as [[a|e] w1]; [|done]. cbn [snd] in Hw. subst w1.
  destruct (Hk a (World (sink w ++ new) (stdout w))) as (new' & Hw' & _ & _).
  intros Hrun. rewrite Hrun in Hw'. cbn [snd sink stdout] in Hw'.
  rewrite <- app_assoc in Hw'. symmetry in Hw'. apply world_grown in Hw'.
  apply app_eq_nil in Hw' as [-> ->]. exists a.
  assert (World (sink w ++ []) (stdout w) = w) as Hid
    by (rewrite app_nil_r; by destruct w).
  rewrite Hid in *. done.
Qed.

Lemma records_file_id_of fptr : records self (file_id_of fptr).
Proof. unfold file_id_of. repeat records_step. Qed.

Ltac records_lifted :=
  apply records_lift;
  let H := fresh in
  intros H;
  first [ apply findall_exn in H | apply find_exn in H
        | apply xpath_exn in H | apply sorted_opt_exn in H ];
  discriminate.

Ltac records_all :=
  solve [repeat first [ apply records_check_agent
                      | apply records_file_id_of
                      | records_lifted
                      | records_call ]].

Ltac silent H :=
  let a := fresh "a" in
  let Ha := fresh "Ha" in
  apply silent_bind in H as (a & Ha & H);
  [ | records_all | intros ?; records_all ].

Lemma check_element_exists_silent p r w :
  check_element_exists self p w = (Return r, w)
  ↔ ∃ root e, tree self = Some root ∧ xpath root p = inr [e]
              ∧ r = (Some e, true).
Proof.
  split.
  - destruct (tree self) as [root|] eqn:Ht.
    + rewrite (check_element_exists_run _ _ root _ Ht).
      destruct (xpath root p) as [err|[|e [|e' els]]] eqn:Hx; intros Heq;
        try discriminate; try (by apply error_not_silent in Heq).
      injection Heq as <-. by exists root, e.
    + unfold check_element_exists, get_tree. rewrite Ht. done.
  - intros (root & e & Ht & Hx & ->).
    by rewrite (check_element_exists_run _ _ root _ Ht), Hx.
Qed.

Lemma check_subelement_exists_silent e p r w :
  check_subelement_exists self e p w = (Return r, w)
  ↔ ∃ sub, find e p = inr (Some sub) ∧ r = (Some sub, true).
Proof.
  rewrite check_subelement_exists_run. split.
  - destruct (find e p) as [err|[sub|]]; intros Heq;
      try discriminate; try (by apply error_not_silent in Heq).
    injection Heq as <-. by exists sub.
  - by intros (sub & -> & ->).
Qed.

Lemma check_subelements_exist_silent e p expected r w :
  check_subelements_exist self e p expected w = (Return r, w)
  ↔ ∃ subs, findall e p = inr subs ∧ r = (subs, true) ∧ subs ≠ []
            ∧ ∀ k, expected = Some (S k) → length subs = S k.
Proof.
  unfold check_subelements_exist, bind, lift, error.
  destruct (findall e p) as [err|subs]; cbn [ret raise].
  { split; [done|]. by intros (? & ? & _). }
  assert (subs ≠ [] ↔ length subs ≠ 0%nat) as Hlen by (by destruct subs).
  split.
  - intros Hrun. exists subs. split; [done|].
    destruct expected as [[|k]|].
    + rewrite (bool_decide_eq_false_2 (0 ≠ 0)%nat) in Hrun
        by (intros H0; by apply H0).
      cbn [andb] in Hrun.
      destruct (bool_decide (length subs = 0%nat)) eqn:E;
        [by apply error_not_silent in Hrun|].
      apply bool_decide_eq_false in E. injection Hrun as <-.
      split; [done|split; [by apply Hlen|done]].
    + rewrite (bool_decide_eq_true_2 (S k ≠ 0)%nat) in Hrun by done.
      cbn [andb] in Hrun.
      destruct (bool_decide (length subs ≠ S k)) eqn:Ek;
        [by apply error_not_silent in Hrun|].
      apply bool_decide_eq_false in Ek. apply dec_stable in Ek.
      rewrite (bool_decide_eq_false_2 (length subs = 0%nat)) in Hrun by lia.
      injection Hrun as <-. split; [done|split].
      * apply Hlen. lia.
      * by intros k' [= <-].
    + destruct (bool_decide (length subs = 0%nat)) eqn:E;
        [by apply error_not_silent in Hrun|].
      apply bool_decide_eq_false in E. injection Hrun as <-.
      split; [done|split; [by apply Hlen|done]].
  - intros (subs' & [= <-] & -> & Hne & Hk). apply Hlen in Hne.
    rewrite (bool_decide_eq_false_2 (length subs = 0%nat)) by done.
    destruct expected as [[|k]|]; [|rewrite (Hk k eq_refl)|done].
    + by rewrite (bool_decide_eq_false_2 (0 ≠ 0)%nat)
        by (intros H0; by apply H0).
    + rewrite (bool_decide_eq_false_2 (S k ≠ S k)%nat)
        by (intros H0; by apply H0).
      by rewrite andb_false_r.
Qed.

Lemma check_tag_attrib_is_silent tag_ attribute value w :
  check_tag_attrib self tag_ attribute (lit "Is") (Some value) w
  = (Return tt, w)
  ↔ attrib tag_ !! attribute = Some value.
Proof.
  split; [|apply check_tag_attrib_is_equal].
  rewrite check_tag_attrib_is.
  destruct (attrib tag_ !! attribute) as [actual|] eqn:Ha.
  - unfold check_tag_attrib_equals. rewrite Ha.
    destruct (bool_decide (Some actual ≠ Some value)) eqn:E.
    + intros Heq. by apply error_not_silent in Heq.
    + intros _. apply bool_decide_eq_false in E. by apply dec_stable in E.
  - intros Heq. by apply error_not_silent in Heq.
Qed.

Lemma check_tag_attrib_exists_silent tag_ attribute value w :
  check_tag_attrib self tag_ attribute (lit "Exists") value w
  = (Return tt, w)
  ↔ is_Some (attrib tag_ !! attribute).
Proof.
  rewrite check_tag_attrib_exists_only.
  destruct (attrib tag_ !! attribute) as [actual|]; split; try done.
  intros Heq. by apply error_not_silent in Heq.
Qed.

Lemma check_tag_text_silent tag_ value w :
  check_tag_text self tag_ (lit "Is") value w = (Return tt, w)
  ↔ sanitize_text (text tag_) = sanitize_text value.
Proof.
  unfold check_tag_text. rewrite bool_decide_eq_true_2 by done.
  destruct (bool_decide (sanitize_text (text tag_) ≠ sanitize_text value))
    eqn:E.
  - apply bool_decide_eq_true in E. split; [|done].
    intros Heq. by apply error_not_silent in Heq.
  - apply bool_decide_eq_false in E. by apply dec_stable in E.
Qed.

Lemma xpath_root_inv root st name e :
  clark st = Some name →
  xpath root (Path Absolute [st]) = inr [e] → e = root ∧ tag root = name.
Proof.
  intros Hc. unfold xpath. cbn [path_steps mapM]. rewrite Hc. cbn.
  destruct (decide (tag root = name)); [|done]. by intros [= <-].
Qed.

Lemma validate_root_element_run root w :
  tree self = Some root →
  tag root = lit "{http://www.loc.gov/METS/}mets" →
  validate_root_element self w
  = (check_tag_attrib self root (lit "OBJID") (lit "Is") (Some (item_id self));;
     check_tag_attrib self root (lit "TYPE") (lit "Is")
       (Some (lit "AUDIO RECORDING")))
      (World (sink w ++ namespace_errors self root) (stdout w)).
Proof.
  intros Ht Htag. unfold validate_root_element. unfold bind at 1.
  rewrite (check_element_exists_run _ _ root) by done.
  rewrite (xpath_root root _ (lit "{http://www.loc.gov/METS/}mets")) by done.
  unfold the. unfold bind at 1. cbn [ret].
  unfold bind at 1. rewrite namespace_loop. reflexivity.
Qed.

(** X11.  The root validator leaves no finding exactly for the roots that
    conform: a mets root that declares the six namespaces with their URIs,
    with the id of the item in OBJID and AUDIO RECORDING in TYPE. *)
Theorem validate_root_element_silent w :
  validate_root_element self w = (Return tt, w) ↔ root_conforms self.
Proof.
  split.
  - intros Hrun.
    assert (∃ root, tree self = Some root
                    ∧ tag root = lit "{http://www.loc.gov/METS/}mets")
      as (root & Ht & Htag).
    { unfold validate_root_element in Hrun. silent Hrun.
      apply check_element_exists_silent in Ha as (root & e & Ht & Hx & ->).
      apply (xpath_root_inv _ _ (lit "{http://www.loc.gov/METS/}mets")) in Hx
        as [-> Htag]; [|done].
      by exists root. }
    exists root. split; [done|split; [done|]].
    rewrite (validate_root_element_run root) in Hrun by done.
    assert (namespace_errors self root = []) as Hns.
    { eapply records_from_grown; [|exact Hrun]. records_all. }
    rewrite Hns, world_same in Hrun. silent Hrun. destruct a.
    apply check_tag_attrib_is_silent in Ha, Hrun.
    split; [|done]. apply fmap_nil_inv in Hns.
    apply Forall_forall. intros entry Hin.
    destruct (decide (nsmap root !! entry.1 = Some entry.2)) as [|Hne];
      [done|].
    assert (entry ∈ @nil (str * str)) as Hnil; [|by apply elem_of_nil in Hnil].
    rewrite <- Hns. by apply list_elem_of_filter.
  - intros (root & Ht & Htag & Hns & Hobj & Htype).
    rewrite (validate_root_element_run root) by done.
    unfold namespace_errors. rewrite filter_none.
    + cbn [fmap list_fmap]. rewrite app_nil_r. unfold bind.
      rewrite !check_tag_attrib_is_equal by done. by destruct w.
    + intros k v Hin. eapply Forall_forall in Hns; [|exact Hin]. done.
Qed.

Tactic Notation "silent" hyp(H) "as" simple_intropattern(a) ident(Ha) :=
  apply silent_bind in H as (a & Ha & H);
  [ | records_all | intros ?; records_all ].

Lemma attribs_loop_silent agent (attribs : list (string * string)) w :
  for_each attribs tt (fun '(attribute, value) _ =>
    check_tag_attrib self agent (lit attribute) (lit "Is")
      (Some (lit value))) w
  = (Return tt, w)
  ↔ Forall (fun '(attribute, value) =>
              attrib agent !! lit attribute = Some (lit value)) attribs.
Proof.
  induction attribs as [|[attribute value] attribs IH]; [done|].
  rewrite Forall_cons, <- IH, <- (check_tag_attrib_is_silent _ _ _ w).
  cbn [for_each]. split.
  - intros Hrun. silent Hrun as [] Ha. done.
  - intros [Ha Hrun]. unfold bind. by rewrite Ha.
Qed.

Lemma check_agent_silent agent attribs name w :
  check_agent self agent attribs name w = (Return tt, w)
  ↔ agent_conforms agent attribs name.
Proof.
  unfold check_agent, agent_conforms. rewrite <- (attribs_loop_silent _ _ w).
  split.
  - intros Hrun. silent Hrun as [] Hattribs. split; [done|].
    silent Hrun as found Hfound.
    apply check_subelement_exists_silent in Hfound as (agent_name & Hf & ->).
    exists agent_name. split; [done|].
    silent Hrun as n Hn. injection Hn as <-.
    by apply check_tag_text_silent in Hrun.
  - intros (Hattribs & agent_name & Hfind & Htext).
    unfold bind at 1. rewrite Hattribs. unfold bind at 1.
    rewrite (proj2 (check_subelement_exists_silent agent _
                      (Some agent_name, true) w)) by by exists agent_name.
    unfold the, bind, ret. by apply check_tag_text_silent.
Qed.

(** X12.  The header validator leaves no finding exactly for the headers that
    conform: one metsHdr with a CREATEDATE and three agents with the
    attributes and names of the vendor, the preserving library and the
    disseminating library. *)
Theorem validate_mets_header_silent w :
  validate_mets_header self w = (Return tt, w) ↔ header_conforms self.
Proof.
  unfold validate_mets_header, header_conforms. split.
  - intros Hrun. silent Hrun as found Hfound.
    apply check_element_exists_silent in Hfound as (root & header & Ht & Hx & ->).
    exists root, header.
    silent Hrun as h Hh. injection Hh as <-.
    silent Hrun as [] Hdate. apply check_tag_attrib_exists_silent in Hdate.
    silent Hrun as agents Hagents.
    apply check_subelements_exist_silent in Hagents
      as (subs & Hall & -> & _ & Hlen).
    specialize (Hlen 2%nat eq_refl).
    destruct subs as [|agent0 [|agent1 [|agent2 [|]]]]; try done.
    exists agent0, agent1, agent2.
    silent Hrun as a0 H0. injection H0 as <-.
    silent Hrun as [] H0. apply check_agent_silent in H0.
    silent Hrun as a1 H1. injection H1 as <-.
    silent Hrun as [] H1. apply check_agent_silent in H1.
    silent Hrun as a2 H2. injection H2 as <-.
    apply check_agent_silent in Hrun. done.
  - intros (root & header & agent0 & agent1 & agent2
            & Ht & Hx & Hdate & Hall & H0 & H1 & H2).
    unfold bind at 1.
    rewrite (proj2 (check_element_exists_silent _ (Some header, true) w))
      by by exists root, header.
    unfold the. unfold bind at 1. cbn [ret]. unfold bind at 1.
    rewrite (proj2 (check_tag_attrib_exists_silent _ _ _ w)) by done.
    unfold bind at 1.
    rewrite (proj2 (check_subelements_exist_silent header _ _
                      ([agent0; agent1; agent2], true) w)).
    2:{ exists [agent0; agent1; agent2]. repeat split; try done.
        by intros k [= <-]. }
    unfold index, bind. cbn [lookup list_lookup ret].
    apply (check_agent_silent _ _ _ w) in H0, H1, H2.
    by rewrite H0, H1, H2.
Qed.

Lemma getitem_silent {V} (d : gmap str V) key v w :
  getitem d key w = (Return v, w) ↔ d !! lit key = Some v.
Proof.
  unfold getitem. destruct (d !! lit key); split; try done.
  - by intros [= ->].
  - by intros [= ->].
Qed.

Lemma fptr_loop_inv fptrs (acc found : list str) w :
  for_each fptrs acc (fun fptr file_pointers =>
    do file_id <- file_id_of fptr;
    ret (file_pointers ++ [file_id])) w
  = (Return found, w) →
  ∃ raw, (fun fptr => attrib fptr !! lit "FILEID") <$> fptrs = Some <$> raw
         ∧ found = acc ++ (clean_file_id <$> raw).
Proof.
  revert acc. induction fptrs as [|f fptrs IH]; intros acc.
  { intros [= <-]. exists []. by rewrite app_nil_r. }
  cbn [for_each]. unfold bind at 1 2. unfold file_id_of.
  destruct (attrib f !! lit "FILEID") as [value|] eqn:Hf; [|done].
  cbn [ret]. intros Hrun. apply IH in Hrun as (raw & Hraw & ->).
  exists (value :: raw). rewrite !fmap_cons, Hf, Hraw, <- app_assoc.
  done.
Qed.

(** X14.  The structural-map validator leaves no finding exactly for the
    documents whose fptrs, all with a FILEID, name the wav and mp3 files of
    the item once each, in any order. *)
Theorem validate_structural_map_section_silent w :
  validate_structural_map_section repr self w = (Return tt, w)
  ↔ struct_map_conforms self.
Proof.
  split.
  - unfold validate_structural_map_section, struct_map_conforms.
    intros Hrun. silent Hrun as found Hfound.
    apply check_element_exists_silent in Hfound
      as (root & struct_map & Ht & Hx & ->).
    silent Hrun as sm Hsm. injection Hsm as <-.
    silent Hrun as div Hdiv.
    apply check_subelement_exists_silent in Hdiv as (div_one & Hfind & ->).
    silent Hrun as d Hd. injection Hd as <-.
    silent Hrun as divs Hdivs.
    apply check_subelements_exist_silent in Hdivs
      as (sub_divs & Hall & -> & Hne & _).
    silent Hrun as wav Hwav. apply getitem_silent in Hwav.
    silent Hrun as mp3 Hmp3. apply getitem_silent in Hmp3.
    silent Hrun as file_pointers Hloop.
    rewrite sub_div_loop in Hloop.
    apply fptr_loop_inv in Hloop as (raw & Hraw & ->).
    exists raw, (wav ++ mp3). split; [|split].
    + by exists root, struct_map, div_one, sub_divs.
    + by exists wav, mp3.
    + apply sorted_eq_iff. rewrite app_nil_l in Hrun.
      destruct (bool_decide (sorted (clean_file_id <$> raw)
                               ≠ sorted (wav ++ mp3))) eqn:E.
      * by apply error_not_silent in Hrun.
      * apply bool_decide_eq_false in E. by apply dec_stable in E.
  - intros (raw & files & Hs & Hf & Hperm).
    rewrite (validate_structural_map_section_run repr self raw files) by done.
    rewrite bool_decide_eq_false_2; [done|].
    intros Hne. apply Hne. by apply sorted_eq_iff.
Qed.

Lemma file_group_silent group (found found' : list (option str)) w :
  (let file_group_id := attrib group !! lit "ID" in
   let found_ids := found ++ [file_group_id] in
   (if bool_decide (file_group_id = Some (lit "audio-files")) then
      check_subelements_exist self group
        (Path Relative [mets_ "fileGrp"]) (Some 3%nat);;
      ret tt
    else ret tt);;
   ret found_ids) w
  = (Return found', w)
  ↔ found' = found ++ [attrib group !! lit "ID"]
    ∧ (attrib group !! lit "ID" = Some (lit "audio-files") →
       ∃ nested,
         findall group (Path Relative [mets_ "fileGrp"]) = inr nested
         ∧ length nested = 3%nat).
Proof.
  cbv zeta. split.
  - intros Hrun. silent Hrun as [] Hnested. injection Hrun as <-.
    split; [done|]. intros Hid.
    rewrite bool_decide_eq_true_2 in Hnested by done.
    silent Hnested as nested Hn.
    apply check_subelements_exist_silent in Hn as (subs & Hall & _ & _ & Hlen).
    exists subs. split; [done|]. by apply Hlen.
  - intros [-> Hnested]. unfold bind at 1.
    destruct (bool_decide (attrib group !! lit "ID" = Some (lit "audio-files")))
      eqn:E; [|done].
    apply bool_decide_eq_true in E. destruct (Hnested E) as (nested & Hall & Hlen).
    unfold bind at 1.
    rewrite (proj2 (check_subelements_exist_silent group _ _ (nested, true) w));
      [done|].
    exists nested. repeat split; try done.
    + intros ->. done.
    + intros k [= <-]. done.
Qed.

Lemma sorted_pair a b x y :
  sorted [a; b] = [x; y] → (a = x ∧ b = y) ∨ (a = y ∧ b = x).
Proof.
  intros Hs. apply Permutation_length_2.
  rewrite <- Hs. symmetry. apply sorted_Permutation.
Qed.

(** X13.  The file-section validator leaves no finding exactly for the documents
    with one fileSec of two file groups, audio-files and media_images in
    either order, whose audio group has three groups nested in it. *)
Theorem validate_file_section_silent w :
  validate_file_section repr self w = (Return tt, w)
  ↔ file_section_conforms self.
Proof.
  unfold validate_file_section, file_section_conforms. split.
  - intros Hrun. silent Hrun as found Hfound.
    apply check_element_exists_silent in Hfound
      as (root & file_section & Ht & Hx & ->).
    exists root, file_section.
    silent Hrun as fs Hfs. injection Hfs as <-.
    silent Hrun as groups Hgroups.
    apply check_subelements_exist_silent in Hgroups
      as (subs & Hall & -> & _ & Hlen).
    specialize (Hlen 1%nat eq_refl).
    destruct subs as [|group1 [|group2 [|]]]; try done.
    exists group1, group2. split; [done|split; [done|split; [done|]]].
    silent Hrun as found_ids Hloop.
    cbn [for_each] in Hloop.
    silent Hloop as found1 H1. apply file_group_silent in H1 as [-> H1].
    silent Hloop as found2 H2. apply file_group_silent in H2 as [-> H2].
    injection Hloop as <-. cbn [app] in Hrun.
    silent Hrun as sorted_found Hsorted.
    unfold sorted_opt in Hsorted.
    destruct (attrib group1 !! lit "ID") as [id1|] eqn:Hid1;
      destruct (attrib group2 !! lit "ID") as [id2|] eqn:Hid2;
      try discriminate.
    cbn [mapM mbind option_bind id mret option_ret lift ret] in Hsorted.
    injection Hsorted as <-.
    destruct (bool_decide _) eqn:E in Hrun;
      [by apply error_not_silent in Hrun|].
    apply bool_decide_eq_false in E. apply dec_stable in E.
    apply (inj (fmap Some)) in E.
    apply sorted_pair in E as [[-> ->]|[-> ->]]; [left|right].
    + split; [by split; auto|done].
    + split; [done|by split; auto].
  - intros (root & file_section & group1 & group2 & Ht & Hx & Hall & Hgroups).
    eapply bind_silent.
    { apply check_element_exists_silent. by exists root, file_section. }
    eapply bind_silent; [reflexivity|].
    eapply bind_silent.
    { apply check_subelements_exist_silent. exists [group1; group2].
      repeat split; try done. by intros k [= <-]. }
    assert (∀ group found,
              audio_group group ∨ images_group group →
              (let file_group_id := attrib group !! lit "ID" in
               let found_ids := found ++ [file_group_id] in
               (if bool_decide (file_group_id = Some (lit "audio-files")) then
                  check_subelements_exist self group
                    (Path Relative [mets_ "fileGrp"]) (Some 3%nat);;
                  ret tt
                else ret tt);;
               ret found_ids) w
              = (Return (found ++ [attrib group !! lit "ID"]), w)) as Hbody.
    { intros group found Hgroup. apply file_group_silent. split; [done|].
      destruct Hgroup as [[_ Hn]|Hid]; [done|].
      unfold images_group in Hid. by rewrite Hid. }
    eapply bind_silent.
    { cbn [for_each]. eapply bind_silent; [apply Hbody; tauto|].
      eapply bind_silent; [apply Hbody; tauto|]. reflexivity. }
    cbn [app].
    destruct Hgroups as [[[Hid1 _] Hid2]|[Hid1 [Hid2 _]]];
      unfold images_group in *; rewrite Hid1, Hid2; reflexivity.
Qed.

Lemma tech_md_silent techMD (found found' : list (option str)) w :
  (do mdRef <- lift (find techMD (Path Relative [mets_ "mdRef"]));
   if bool_decide (mdRef = None :> option element) then
     do '(primary_identifier_element, exists_) <-
       check_subelement_exists self techMD
         (Path Dotted [mets_ "mdWrap"; mets_ "xmlData";
                       aes_ "audioObject"; aes_ "primaryIdentifier"]);
     if exists_ : bool then
       do primary_identifier_element <- the primary_identifier_element;
       ret (found ++ [text primary_identifier_element])
     else ret found
   else ret found) w
  = (Return found', w)
  ↔ ∃ names, tech_md_names techMD = Some names ∧ found' = found ++ names.
Proof.
  unfold tech_md_names. fold primary_identifier. unfold bind at 1.
  destruct (find techMD (Path Relative [mets_ "mdRef"])) as [err|[mdRef|]];
    cbn [lift ret raise].
  - split; [done|]. by intros (? & ? & _).
  - rewrite bool_decide_eq_false_2 by done. split.
    + intros [= <-]. exists []. by rewrite app_nil_r.
    + intros (names & [= <-] & ->). by rewrite app_nil_r.
  - rewrite bool_decide_eq_true_2 by done. split.
    + intros Hrun. silent Hrun as pie Hpie.
      apply check_subelement_exists_silent in Hpie as (identifier & Hf & ->).
      rewrite Hf. silent Hrun as i Hi. injection Hi as <-.
      injection Hrun as <-. by eexists.
    + intros (names & Hnames & ->).
      destruct (find techMD primary_identifier) as [|[identifier|]] eqn:Hf;
        try done.
      injection Hnames as <-.
      eapply bind_silent.
      { apply check_subelement_exists_silent. by exists identifier. }
      reflexivity.
Qed.

Lemma tech_md_loop_silent techMDs (acc found : list (option str)) w :
  for_each techMDs acc (fun techMD found_files =>
    do mdRef <- lift (find techMD (Path Relative [mets_ "mdRef"]));
    if bool_decide (mdRef = None :> option element) then
      do '(primary_identifier_element, exists_) <-
        check_subelement_exists self techMD
          (Path Dotted [mets_ "mdWrap"; mets_ "xmlData";
                        aes_ "audioObject"; aes_ "primaryIdentifier"]);
      if exists_ : bool then
        do primary_identifier_element <- the primary_identifier_element;
        ret (found_files ++ [text primary_identifier_element])
      else ret found_files
    else ret found_files) w
  = (Return found, w)
  ↔ ∃ namess, mapM tech_md_names techMDs = Some namess
              ∧ found = acc ++ concat namess.
Proof.
  revert acc. induction techMDs as [|t techMDs IH]; intros acc.
  { cbn. split.
    - intros [= <-]. exists []. by rewrite app_nil_r.
    - intros (namess & [= <-] & ->). by rewrite app_nil_r. }
  cbn [for_each mapM]. split.
  - intros Hrun. silent Hrun as acc' Hbody.
    apply tech_md_silent in Hbody as (names & Hnames & ->).
    apply IH in Hrun as (namess & Hnamess & ->).
    exists (names :: namess). rewrite Hnames, Hnamess. cbn.
    by rewrite app_assoc.
  - intros (namess & Hm & ->).
    destruct (tech_md_names t) as [names|] eqn:Hnames; [|done].
    destruct (mapM tech_md_names techMDs) as [rest|] eqn:Hrest; [|done].
    cbn in Hm. injection Hm as <-.
    eapply bind_silent; [apply tech_md_silent; by eexists|].
    apply IH. exists rest. split; [done|]. cbn. by rewrite app_assoc.
Qed.

Lemma mapM_id_Some (l : list (option str)) strs :
  mapM id l = Some strs ↔ l = Some <$> strs.
Proof.
  revert strs. induction l as [|[x|] l IH]; intros strs; cbn.
  - split; [by intros [= <-]|]. by destruct strs.
  - destruct (mapM id l) as [k|] eqn:Hk; cbn.
    + split.
      * intros [= <-]. cbn. f_equal. by apply IH.
      * destruct strs as [|y strs]; [done|]. intros [= -> Hl].
        apply IH in Hl. by injection Hl as ->.
    + split; [done|]. destruct strs as [|y strs]; [done|].
      intros [= _ Hl]. by apply IH in Hl.
  - split; [done|]. by destruct strs.
Qed.

Lemma sorted_opt_matches found audio :
  sorted_opt found = inr (Some <$> sorted audio)
  ↔ ∃ names, found = Some <$> names ∧ names ≡ₚ audio.
Proof.
  unfold sorted_opt. split.
  - destruct (mapM id found) as [strs|] eqn:Hm.
    + intros [= Hs]. apply (inj (fmap Some)) in Hs. exists strs.
      split; [by apply mapM_id_Some|by apply sorted_eq_iff].
    + destruct (decide _); [|done]. intros [= ->].
      by rewrite (proj2 (mapM_id_Some _ (sorted audio)) eq_refl) in Hm.
  - intros (names & -> & Hperm).
    rewrite (proj2 (mapM_id_Some _ names) eq_refl).
    do 2 f_equal. by apply sorted_eq_iff.
Qed.

(** X15.  The validator of the administrative metadata leaves no finding exactly
    for the documents that conform: one amdSec; as many techMDs as the item
    has wav, mp3 and txt files; every techMD without an mdRef has a primary
    identifier, and the identifiers are the wav and mp3 names, once each;
    a sourceMD and a digiprovMD are there. *)
Theorem validate_administrative_metadata_silent w :
  validate_administrative_metadata self w = (Return tt, w)
  ↔ administrative_metadata_conforms self.
Proof.
  unfold validate_administrative_metadata, administrative_metadata_conforms.
  split.
  - intros Hrun. silent Hrun as found Hfound.
    apply check_element_exists_silent in Hfound
      as (root & amd_sec & Ht & Hx & ->).
    silent Hrun as a Hamd. injection Hamd as <-.
    silent Hrun as wav Hwav. apply getitem_silent in Hwav.
    silent Hrun as mp3 Hmp3. apply getitem_silent in Hmp3.
    silent Hrun as txt Htxt. apply getitem_silent in Htxt.
    silent Hrun as techs Htechs.
    apply check_subelements_exist_silent in Htechs
      as (techMDs & Hall & -> & Hne & Hlen).
    silent Hrun as [] Hfiles.
    silent Hfiles as found_files Hloop.
    apply tech_md_loop_silent in Hloop as (namess & Hnamess & ->).
    silent Hfiles as sorted_found Hsorted.
    destruct (bool_decide _) eqn:E in Hfiles;
      [by apply error_not_silent in Hfiles|].
    apply bool_decide_eq_false in E. apply dec_stable in E. subst sorted_found.
    destruct (sorted_opt ([] ++ concat namess)) as [|sf] eqn:Hs; [done|].
    injection Hsorted as ->.
    apply sorted_opt_matches in Hs as (names & Hnames & Hperm).
    silent Hrun as source Hsource.
    apply check_subelement_exists_silent in Hsource as (source' & Hsource & _).
    silent Hrun as digiprov Hdigiprov.
    apply check_subelement_exists_silent in Hdigiprov
      as (digiprov' & Hdigiprov & _).
    exists root, amd_sec, wav, mp3, txt, techMDs, namess, names.
    repeat split; try done; try by eexists.
    intros Hfilesne. rewrite <- app_assoc in Hlen.
    destruct (wav ++ mp3 ++ txt) as [|f fs]; [done|]. by apply Hlen.
  - intros (root & amd_sec & wav & mp3 & txt & techMDs & found & names
            & Ht & Hx & Hwav & Hmp3 & Htxt & Hall & Hne & Hlen & Hfound
            & Hnames & Hperm & [source Hsource] & [digiprov Hdigiprov]).
    eapply bind_silent.
    { apply check_element_exists_silent. by exists root, amd_sec. }
    eapply bind_silent; [reflexivity|].
    eapply bind_silent; [by apply getitem_silent|].
    eapply bind_silent; [by apply getitem_silent|].
    eapply bind_silent; [by apply getitem_silent|].
    eapply bind_silent.
    { apply check_subelements_exist_silent. exists techMDs.
      repeat split; try done. intros k Hk. rewrite <- app_assoc in *.
      injection Hk as Hk. rewrite <- Hk. apply Hlen.
      intros Hnil. by rewrite Hnil in Hk. }
    eapply bind_silent.
    { eapply bind_silent; [apply tech_md_loop_silent; by eexists|].
      eapply bind_silent.
      { rewrite (proj2 (sorted_opt_matches _ (wav ++ mp3))) by by eexists.
        reflexivity. }
      rewrite bool_decide_eq_false_2; [done|]. intros Hneq. by apply Hneq. }
    eapply bind_silent.
    { apply check_subelement_exists_silent. by eexists. }
    eapply bind_silent.
    { apply check_subelement_exists_silent. by eexists. }
    reflexivity.
Qed.

Lemma warning_not_silent {A} (a b : outcome A) message w :
  (a, add_warning self message w) = (b, w) → False.
Proof. intros [= _ Hw]. by apply add_warning_neq in Hw. Qed.

Lemma truthy_get_true (d : gmap str str) key :
  truthy_get d key = true ↔ ∃ value, d !! lit key = Some value ∧ value ≠ [].
Proof.
  unfold truthy_get. destruct (d !! lit key) as [[|c value]|]; split;
    try done.
  - by intros (? & [= <-] & ?).
  - intros _. by eexists.
  - by intros (? & ? & _).
Qed.

Lemma truthy_dict_true (d : option (gmap str str)) :
  truthy_dict d = true ↔ ∃ m, d = Some m ∧ m ≠ ∅.
Proof.
  destruct d as [m|]; cbn.
  - rewrite bool_decide_eq_true. split; [by exists m|].
    by intros (? & [= <-] & ?).
  - split; [done|]. by intros (? & ? & _).
Qed.

Lemma check_dates_silent metadata_date mets_date w :
  check_dates dateparser_parse self (Some metadata_date) mets_date w
  = (Return tt, w)
  ↔ ∃ d, mets_date = Some d ∧ dates_agree dateparser_parse metadata_date d.
Proof.
  unfold check_dates, dates_agree, bind.
  destruct (_ && bool_decide (mets_date = _)); cbn [ret];
    (destruct mets_date as [d|]; [|split; [done|by intros (? & ? & _)]]);
    (destruct (bool_decide (_ ≠ dateparser_parse d)) eqn:E1;
     [destruct (bool_decide (dateparser_parse (drop_last _) ≠ _)) eqn:E2|];
     cbn [andb];
     [ apply bool_decide_eq_true in E1, E2; split;
       [intros Hrun; by apply error_not_silent in Hrun
       |intros (? & [= <-] & Hn); destruct Hn; by split]
     | apply bool_decide_eq_false in E2; split; [|done]; intros _;
       exists d; split; [done|]; by intros [_ ?]
     | apply bool_decide_eq_false in E1; split; [|done]; intros _;
       exists d; split; [done|]; by intros [? _] ]).
Qed.

Lemma field_silent (metadata : gmap str str) key xmlData name message w :
  (if truthy_get metadata key then
     do '(node, exists_) <-
       check_subelement_exists self xmlData (Path Relative [dc_ name]);
     if exists_ : bool then
       do node <- the node;
       do value <- getitem metadata key;
       check_tag_text self node (lit "Is") (Some value)
     else ret tt
   else warn (path_to_mets self) (item_id self) message) w
  = (Return tt, w)
  ↔ field_matches metadata key xmlData name.
Proof.
  unfold field_matches.
  destruct (truthy_get metadata key) eqn:Hkey.
  - apply truthy_get_true in Hkey as (value & Hvalue & Hne). split.
    + intros Hrun. silent Hrun as found Hfound.
      apply check_subelement_exists_silent in Hfound as (node & Hfind & ->).
      silent Hrun as n Hn. injection Hn as <-.
      silent Hrun as v Hv. apply getitem_silent in Hv.
      rewrite Hvalue in Hv. injection Hv as <-.
      apply check_tag_text_silent in Hrun. by exists value, node.
    + intros (value' & node & Hvalue' & _ & Hfind & Htext).
      eapply bind_silent.
      { apply check_subelement_exists_silent. by exists node. }
      eapply bind_silent; [reflexivity|].
      eapply bind_silent; [by apply getitem_silent|].
      by apply check_tag_text_silent.
  - split.
    + intros Hrun. by apply warning_not_silent in Hrun.
    + intros (value & node & Hvalue & Hne & _).
      assert (truthy_get metadata key = true) as Ht
        by (apply truthy_get_true; by exists value).
      congruence.
Qed.

(** X16.  The validator of the descriptive metadata leaves no finding, neither an
    error nor a warning, exactly for the items and documents that conform:
    metadata with title, collection title and date, and one dmdSec whose
    Dublin Core record agrees with them. *)
Theorem validate_descriptive_metadata_silent w :
  validate_descriptive_metadata dateparser_parse self w = (Return tt, w)
  ↔ descriptive_metadata_conforms dateparser_parse self.
Proof.
  unfold validate_descriptive_metadata, descriptive_metadata_conforms.
  split.
  - intros Hrun. silent Hrun as found Hfound.
    apply check_element_exists_silent in Hfound
      as (root & dmd_sec & Ht & Hx & ->).
    silent Hrun as d Hd. injection Hd as <-.
    destruct (truthy_dict (item_metadata self)) eqn:Hmeta;
      [|by apply warning_not_silent in Hrun].
    apply truthy_dict_true in Hmeta as (metadata & Hmeta & Hne).
    silent Hrun as m Hm. rewrite Hmeta in Hm. injection Hm as <-.
    silent Hrun as wrap Hwrap.
    apply check_subelement_exists_silent in Hwrap as (mdWrap & Hwrap & ->).
    silent Hrun as mw Hmw. injection Hmw as <-.
    silent Hrun as [] Hmdtype. apply check_tag_attrib_is_silent in Hmdtype.
    silent Hrun as [] Hlabel. apply check_tag_attrib_is_silent in Hlabel.
    silent Hrun as data Hdata.
    apply check_subelement_exists_silent in Hdata as (xmlData & Hdata & ->).
    silent Hrun as xd Hxd. injection Hxd as <-.
    silent Hrun as [] Htitle. apply field_silent in Htitle.
    silent Hrun as [] Hrelation. apply field_silent in Hrelation.
    silent Hrun as ident Hident.
    apply check_subelement_exists_silent in Hident as (identifier & Hident & ->).
    silent Hrun as [] Hid. silent Hid as i Hi. injection Hi as <-.
    apply check_tag_text_silent in Hid.
    silent Hrun as [] Hdate.
    destruct (truthy_get metadata "item_date") eqn:Hkey;
      [|by apply warning_not_silent in Hdate].
    apply truthy_get_true in Hkey as (item_date & Hitem_date & Hdne).
    silent Hdate as dnode Hdnode.
    apply check_subelement_exists_silent in Hdnode as (dc_date & Hdc_date & ->).
    silent Hdate as dd Hdd. injection Hdd as <-.
    silent Hdate as v Hv. apply getitem_silent in Hv.
    rewrite Hitem_date in Hv. injection Hv as <-.
    apply check_dates_silent in Hdate as (mets_date & Htext & Hagree).
    silent Hrun as format Hformat.
    apply check_subelement_exists_silent in Hformat as (dc_format & Hformat & _).
    silent Hrun as extent Hextent.
    apply check_subelements_exist_silent in Hextent
      as (extents & Hextents & _ & Hene & _).
    exists root, dmd_sec, metadata, mdWrap, xmlData.
    repeat split; try done; try by eexists.
    by exists item_date, dc_date, mets_date.
  - intros (root & dmd_sec & metadata & mdWrap & xmlData & Ht & Hx & Hmeta
            & Hne & Hwrap & Hmdtype & Hlabel & Hdata & Htitle & Hrelation
            & (identifier & Hident & Hid)
            & (item_date & dc_date & mets_date & Hitem_date & Hdne & Hdc_date
               & Htext & Hagree)
            & (dc_format & Hformat) & (extents & Hextents & Hene)).
    eapply bind_silent.
    { apply check_element_exists_silent. by exists root, dmd_sec. }
    eapply bind_silent; [reflexivity|].
    rewrite (proj2 (truthy_dict_true _)) by by exists metadata.
    eapply bind_silent; [by rewrite Hmeta|].
    eapply bind_silent.
    { apply check_subelement_exists_silent. by exists mdWrap. }
    eapply bind_silent; [reflexivity|].
    eapply bind_silent; [by apply check_tag_attrib_is_silent|].
    eapply bind_silent; [by apply check_tag_attrib_is_silent|].
    eapply bind_silent.
    { apply check_subelement_exists_silent. by exists xmlData. }
    eapply bind_silent; [reflexivity|].
    eapply bind_silent; [by apply field_silent|].
    eapply bind_silent; [by apply field_silent|].
    eapply bind_silent.
    { apply check_subelement_exists_silent. by exists identifier. }
    eapply bind_silent.
    { eapply bind_silent; [reflexivity|]. by apply check_tag_text_silent. }
    eapply bind_silent.
    { rewrite (proj2 (truthy_get_true _ _)) by by exists item_date.
      eapply bind_silent.
      { apply check_subelement_exists_silent. by exists dc_date. }
      eapply bind_silent; [reflexivity|].
      eapply bind_silent; [by apply getitem_silent|].
      apply check_dates_silent. by exists mets_date. }
    eapply bind_silent.
    { apply check_subelement_exists_silent. by exists dc_format. }
    eapply bind_silent.
    { apply check_subelements_exist_silent. exists extents.
      repeat split; try done. }
    reflexivity.
Qed.

Lemma records_run_validators :
  records self (run_validators dateparser_parse repr self).
Proof.
  unfold run_validators.
  repeat (apply records_bind; [|intros _]);
    auto using records_validate_root_element, records_validate_mets_header,
      records_validate_descriptive_metadata,
      records_validate_administrative_metadata,
      records_validate_file_section,
      records_validate_structural_map_section.
Qed.

(** X17.  The six validators do not depend on one another: run one after the
    other they leave no finding exactly when each of them, run alone from
    the same state, leaves none. *)
Theorem run_validators_silent w :
  run_validators dateparser_parse repr self w = (Return tt, w)
  ↔ validate_root_element self w = (Return tt, w)
    ∧ validate_mets_header self w = (Return tt, w)
    ∧ validate_descriptive_metadata dateparser_parse self w = (Return tt, w)
    ∧ validate_administrative_metadata self w = (Return tt, w)
    ∧ validate_file_section repr self w = (Return tt, w)
    ∧ validate_structural_map_section repr self w = (Return tt, w).
Proof.
  unfold run_validators. split.
  - intros Hrun.
    apply silent_bind in Hrun as ([] & Hroot & Hrun);
      [|apply records_validate_root_element
       |intros _;
        repeat (apply records_bind; [|intros _]);
        auto using records_validate_mets_header,
          records_validate_descriptive_metadata,
          records_validate_administrative_metadata,
          records_validate_file_section,
          records_validate_structural_map_section].
    apply silent_bind in Hrun as ([] & Hheader & Hrun);
      [|apply records_validate_mets_header
       |intros _;
        repeat (apply records_bind; [|intros _]);
        auto using records_validate_descriptive_metadata,
          records_validate_administrative_metadata,
          records_validate_file_section,
          records_validate_structural_map_section].
    apply silent_bind in Hrun as ([] & Hdescriptive & Hrun);
      [|apply records_validate_descriptive_metadata
       |intros _;
        repeat (apply records_bind; [|intros _]);
        auto using records_validate_administrative_metadata,
          records_validate_file_section,
          records_validate_structural_map_section].
    apply silent_bind in Hrun as ([] & Hadministrative & Hrun);
      [|apply records_validate_administrative_metadata
       |intros _;
        repeat (apply records_bind; [|intros _]);
        auto using records_validate_file_section,
          records_validate_structural_map_section].
    apply silent_bind in Hrun as ([] & Hfile & Hrun);
      [|apply records_validate_file_section
       |intros _; apply records_validate_structural_map_section].
    done.
  - intros (Hroot & Hheader & Hdescriptive & Hadministrative & Hfile & Hmap).
    repeat (eapply bind_silent; [eassumption|]). done.
Qed.

Lemma fptr_loop_raises fptrs (acc : list str) w :
  None ∈ (fun fptr => attrib fptr !! lit "FILEID") <$> fptrs →
  for_each fptrs acc (fun fptr file_pointers =>
    do file_id <- file_id_of fptr;
    ret (file_pointers ++ [file_id])) w
  = (Raise AttributeError, w).
Proof.
  revert acc. induction fptrs as [|f fptrs IH]; intros acc Hin.
  { by apply elem_of_nil in Hin. }
  cbn [for_each]. unfold bind at 1 2. unfold file_id_of.
  destruct (attrib f !! lit "FILEID") as [value|] eqn:Hf; [|done].
  cbn [ret]. apply IH. rewrite fmap_cons, Hf in Hin.
  by apply elem_of_cons in Hin as [|].
Qed.

(** X21.  An fptr without FILEID under the nested divs of the structural map
    makes the validator raise [AttributeError], whatever the other fptrs
    say, and nothing is recorded. *)
Theorem validate_structural_map_section_missing_fileid
    root struct_map div_one sub_divs wav mp3 w :
  tree self = Some root →
  xpath root (Path Absolute [mets_ "mets"; mets_ "structMap"])
  = inr [struct_map] →
  find struct_map (Path Relative [mets_ "div"]) = inr (Some div_one) →
  findall div_one (Path Relative [mets_ "div"]) = inr sub_divs →
  item_files self !! lit "wav" = Some wav →
  item_files self !! lit "mp3" = Some mp3 →
  None ∈ fptr_file_ids sub_divs →
  validate_structural_map_section repr self w = (Raise AttributeError, w).
Proof.
  intros Ht Hx Hfind Hall Hwav Hmp3 Hnone.
  unfold validate_structural_map_section.
  eapply bind_silent.
  { apply check_element_exists_silent. by exists root, struct_map. }
  eapply bind_silent; [reflexivity|].
  eapply bind_silent.
  { apply check_subelement_exists_silent. by exists div_one. }
  eapply bind_silent; [reflexivity|].
  eapply bind_silent.
  { apply check_subelements_exist_silent. exists sub_divs.
    repeat split; try done. intros ->. by apply elem_of_nil in Hnone. }
  eapply bind_silent; [by apply getitem_silent|].
  eapply bind_silent; [by apply getitem_silent|].
  unfold bind. by rewrite sub_div_loop, fptr_loop_raises.
Qed.

Lemma bind_run {A B} (m : M A) (k : A → M B) a w w1 r :
  m w = (Return a, w1) → k a w1 = r → bind m k w = r.
Proof. intros Hm Hk. unfold bind. by rewrite Hm. Qed.

Lemma check_subelements_exist_returns e p expected subs w :
  findall e p = inr subs →
  ∃ exist_ w',
    check_subelements_exist self e p expected w = (Return (subs, exist_), w').
Proof.
  intros Hf. unfold check_subelements_exist, bind, lift. rewrite Hf.
  cbn [ret].
  destruct expected as [k|];
    [destruct (bool_decide (k ≠ 0)%nat && bool_decide (length subs ≠ k));
       [by eexists _, _|]|];
    destruct (bool_decide (length subs = 0%nat)); by eexists _, _.
Qed.

Lemma file_group_run group (found : list (option str)) w :
  ∃ w',
    (let file_group_id := attrib group !! lit "ID" in
     let found_ids := found ++ [file_group_id] in
     (if bool_decide (file_group_id = Some (lit "audio-files")) then
        check_subelements_exist self group
          (Path Relative [mets_ "fileGrp"]) (Some 3%nat);;
        ret tt
      else ret tt);;
     ret found_ids) w
    = (Return (found ++ [attrib group !! lit "ID"]), w').
Proof.
  cbv zeta. unfold bind at 1.
  destruct (bool_decide (attrib group !! lit "ID" = Some (lit "audio-files")));
    [|by eexists].
  destruct (check_subelements_exist_returns group
              (Path Relative [mets_ "fileGrp"]) (Some 3%nat) _ w
              (findall_children group Relative (mets_ "fileGrp") _ eq_refl))
    as (exist_ & w' & Hrun).
  exists w'. unfold bind. by rewrite Hrun.
Qed.

(** X25.  A file group without ID among the two of the file section makes the
    validator raise [TypeError] when it sorts the identifiers found. *)
Theorem validate_file_section_missing_id
    root file_section group1 group2 w :
  tree self = Some root →
  xpath root (Path Absolute [mets_ "mets"; mets_ "fileSec"])
  = inr [file_section] →
  findall file_section (Path Relative [mets_ "fileGrp"])
  = inr [group1; group2] →
  attrib group1 !! lit "ID" = None ∨ attrib group2 !! lit "ID" = None →
  (validate_file_section repr self w).1 = Raise TypeError.
Proof.
  intros Ht Hx Hall Hnone.
  destruct (file_group_run group1 [] w) as [w1 H1].
  destruct (file_group_run group2 ([] ++ [attrib group1 !! lit "ID"]) w1)
    as [w2 H2].
  assert (validate_file_section repr self w = (Raise TypeError, w2)) as ->;
    [|done].
  unfold validate_file_section.
  eapply bind_silent.
  { apply check_element_exists_silent. by exists root, file_section. }
  eapply bind_silent; [reflexivity|].
  eapply bind_silent.
  { apply check_subelements_exist_silent. exists [group1; group2].
    repeat split; try done. by intros k [= <-]. }
  eapply bind_run.
  { cbn [for_each]. eapply bind_run; [exact H1|].
    eapply bind_run; [exact H2|]. reflexivity. }
  cbn [app]. unfold bind, sorted_opt.
  destruct Hnone as [-> | ->]; [done|].
  by destruct (attrib group1 !! lit "ID").
Qed.

(** *** Edges of the primitives *)

(** X18.  An expected number of zero is no expectation: the test of the count is
    skipped, so that no child at all is reported as missing, and any number
    of children passes. *)
Theorem check_subelements_exist_expected_zero e p w :
  check_subelements_exist self e p (Some 0%nat) w
  = check_subelements_exist self e p None w.
Proof.
  unfold check_subelements_exist, bind.
  destruct (lift (findall e p) w) as [[subs|err] w1]; [|done].
  by rewrite (bool_decide_eq_false_2 (0 ≠ 0)%nat) by (intros H0; by apply H0).
Qed.

(** X19.  The mode Is without a value to compare with: when the attribute is
    there, building the message fails with [TypeError] and nothing is
    recorded; when it is missing, its absence is recorded as usual. *)
Theorem check_tag_attrib_is_without_value tag_ attribute w :
  check_tag_attrib self tag_ attribute (lit "Is") None w
  = match attrib tag_ !! attribute with
    | Some _ => (Raise TypeError, w)
    | None =>
        (Return tt,
         add_error self
           (attribute ++ lit " attribute does not exists in " ++ tag tag_) w)
    end.
Proof.
  rewrite check_tag_attrib_is.
  destruct (attrib tag_ !! attribute) as [actual|] eqn:Ha; [|done].
  unfold check_tag_attrib_equals. rewrite Ha.
  by rewrite bool_decide_eq_true_2.
Qed.

(** X20.  The flag that the two lookups of one element return tells whether an
    element comes with it, and a lookup that sets the flag has recorded
    nothing. *)
Theorem exists_flag_agrees p e q found exists_ w w' :
  check_element_exists self p w = (Return (found, exists_), w')
  ∨ check_subelement_exists self e q w = (Return (found, exists_), w') →
  (exists_ = true ↔ is_Some found) ∧ (exists_ = true → w' = w).
Proof.
  intros [Hrun|Hrun].
  - destruct (tree self) as [root|] eqn:Ht.
    + rewrite (check_element_exists_run _ _ root _ Ht) in Hrun.
      destruct (xpath root p) as [err|[|x [|y els]]]; try done;
        injection Hrun as <- <- <-.
      * split; [split; [done|by intros [? ?]]|done].
      * by split.
      * split; [split; [done|by intros [? ?]]|done].
    + unfold check_element_exists, get_tree in Hrun. by rewrite Ht in Hrun.
  - rewrite check_subelement_exists_run in Hrun.
    destruct (find e q) as [err|[sub|]]; try done;
      injection Hrun as <- <- <-.
    + by split.
    + split; [split; [done|by intros [? ?]]|done].
Qed.

(** X5.  The validators of the root, the header and the descriptive metadata do
    nothing but record: each keeps the findings that were there, adds
    findings filed under the document and the item being validated, prints
    no line, and never ends the process, since every call of the attribute
    dispatcher in them passes Is or Exists. *)
Theorem section_validators_record :
  records self (validate_root_element self)
  ∧ records self (validate_mets_header self)
  ∧ records self (validate_descriptive_metadata dateparser_parse self).
Proof.
  split; [|split].
  - apply records_validate_root_element.
  - apply records_validate_mets_header.
  - apply records_validate_descriptive_metadata.
Qed.

(** X6.  The validators of the administrative metadata, the file section and the
    structural map do nothing but record either; what they raise on a
    document they cannot handle is never [SystemExit], and the findings
    recorded before stay. *)
Theorem file_validators_record :
  records self (validate_administrative_metadata self)
  ∧ records self (validate_file_section repr self)
  ∧ records self (validate_structural_map_section repr self).
Proof.
  split; [|split].
  - apply records_validate_administrative_metadata.
  - apply records_validate_file_section.
  - apply records_validate_structural_map_section.
Qed.

End Records.

(** ** The loop over the items *)

Section Driver.

Context {date : Type} `{EqDecision date}.
Variable dateparser_parse : str → option date.
Variable repr : str → str.
Variable etree_parse : str → exn + element.

Lemma validate_item_run it self w :
  validate_item dateparser_parse repr etree_parse it self w
  = match i_files it !! lit "xml" with
    | None => (Raise KeyError, w)
    | Some [] => (Return self, w)
    | Some (first :: _) =>
        let path := os_path_join (i_path it) first in
        let self' tree' :=
          {| v_project := v_project self;
             item_id := i_id it;
             item_files := i_files it;
             item_metadata := item_metadata_table (v_project self) !! i_id it;
             path_to_mets := path;
             tree := tree' |} in
        match etree_parse path with
        | inl _ =>
            (Return (self' (tree self)),
             World (sink w ++ [Finding Error path (i_id it)
                                 (lit "mets xml is not valid")])
                   (stdout w))
        | inr root =>
            (run_validators dateparser_parse repr (self' (Some root));;
             ret (self' (Some root))) w
        end
    end.
Proof.
  unfold validate_item, parse_item_mets, getitem, index.
  destruct (i_files it !! lit "xml") as [[|first rest]|]; try reflexivity.
  unfold bind at 1. cbn [ret]. rewrite bool_decide_eq_false_2 by done.
  unfold bind at 1 2 3. cbn [ret lookup list_lookup].
  destruct (etree_parse _); reflexivity.
Qed.

Lemma validate_item_records it self w :
  ∃ new,
    (validate_item dateparser_parse repr etree_parse it self w).2
    = World (sink w ++ new) (stdout w)
    ∧ Forall (filed_under it) new
    ∧ (validate_item dateparser_parse repr etree_parse it self w).1
      ≠ Raise SystemExit
    ∧ ∀ self', (validate_item dateparser_parse repr etree_parse it self w).1
               = Return self' → v_project self' = v_project self.
Proof.
  rewrite validate_item_run.
  destruct (i_files it !! lit "xml") as [[|first rest]|] eqn:Hxml.
  - exists []. rewrite app_nil_r. destruct w. repeat split; try done.
    by intros self' [= <-].
  - cbv zeta. destruct (etree_parse _) as [e|root].
    + eexists [_]. split; [done|split; [|split; [done|by intros ? [= <-]]]].
      repeat constructor. by exists first, rest.
    + set (self' := Validator _ _ _ _ _ (Some root)).
      destruct (records_run_validators dateparser_parse repr self' w)
        as (new & Hw & Hnew & Hexit).
      unfold bind.
      destruct (run_validators _ _ self' w) as [[[]|e] w1];
        cbn [fst snd ret] in *.
      * exists new. split; [done|split; [|split; [done|by intros ? [= <-]]]].
        eapply Forall_impl; [exact Hnew|]. intros f [Hp Hi].
        by exists first, rest.
      * exists new. split; [done|split; [|split]].
        -- eapply Forall_impl; [exact Hnew|]. intros f [Hp Hi].
           by exists first, rest.
        -- intros [= ->]. by apply Hexit.
        -- done.
  - exists []. rewrite app_nil_r. destruct w. repeat split; try done.
Qed.

Lemma validate_items_records l self w :
  ∃ new,
    (for_each l self (validate_item dateparser_parse repr etree_parse) w).2
    = World (sink w ++ new) (stdout w)
    ∧ Forall (fun f => ∃ it, it ∈ l ∧ filed_under it f) new
    ∧ (for_each l self (validate_item dateparser_parse repr etree_parse) w).1
      ≠ Raise SystemExit.
Proof.
  revert self w. induction l as [|it l IH]; intros self w.
  { exists []. rewrite app_nil_r. by destruct w. }
  cbn [for_each]. unfold bind.
  destruct (validate_item_records it self w) as (new & Hw & Hnew & Hexit & _).
  destruct (validate_item _ _ _ it self w) as [[self'|e] w1];
    cbn [fst snd] in *; subst w1.
  - destruct (IH self' (World (sink w ++ new) (stdout w)))
      as (new' & Hw' & Hnew' & Hexit').
    exists (new ++ new'). rewrite Hw'. cbn [sink stdout]. rewrite app_assoc.
    split; [done|split; [|done]]. apply Forall_app. split.
    + eapply Forall_impl; [exact Hnew|]. intros f Hf. exists it.
      split; [by left|done].
    + eapply Forall_impl; [exact Hnew'|]. intros f (it' & Hin & Hf).
      exists it'. split; [by right|done].
  - exists new. split; [done|split; [|]].
    + eapply Forall_impl; [exact Hnew|]. intros f Hf. exists it.
      split; [by left|done].
    + intros [= ->]. by apply Hexit.
Qed.

(** X7.  [validate_mets] keeps the findings that were there and adds findings
    that are each filed under an item of the project and the first xml file
    of that item; it prints no line and never ends the process. *)
Theorem validate_mets_records self w :
  let run := validate_mets dateparser_parse repr etree_parse self w in
  ∃ new,
    run.2 = World (sink w ++ new) (stdout w)
    ∧ Forall (fun f => ∃ it, it ∈ items (v_project self) ∧ filed_under it f)
        new
    ∧ run.1 ≠ Raise SystemExit.
Proof. apply validate_items_records. Qed.

(** X8.  Items whose xml list is empty are passed over: a project that has only
    such items is validated without a finding, and the validator comes back
    as it was, no document having been parsed. *)
Theorem validate_mets_without_xml self w :
  Forall (fun it => i_files it !! lit "xml" = Some []) (items (v_project self)) →
  validate_mets dateparser_parse repr etree_parse self w = (Return self, w).
Proof.
  unfold validate_mets. generalize (items (v_project self)) as l.
  induction l as [|it l IH]; intros Hl; [done|].
  apply Forall_cons in Hl as [Hit Hl].
  cbn [for_each]. unfold bind. rewrite validate_item_run, Hit. by apply IH.
Qed.

Lemma validate_items_unparsable l self w :
  Forall (fun it =>
            ∃ xml, i_files it !! lit "xml" = Some xml
                   ∧ ∀ first, head xml = Some first →
                       ∃ e, etree_parse (os_path_join (i_path it) first) = inl e)
         l →
  ∃ self',
    for_each l self (validate_item dateparser_parse repr etree_parse) w
    = (Return self', World (sink w ++ (l ≫= unparsable)) (stdout w)).
Proof.
  revert self w. induction l as [|it l IH]; intros self w Hl.
  { exists self. cbn. rewrite app_nil_r. by destruct w. }
  apply Forall_cons in Hl as [(xml & Hxml & Hparse) Hl].
  cbn [for_each]. unfold bind. rewrite validate_item_run, bind_cons.
  unfold unparsable at 1. rewrite Hxml. destruct xml as [|first rest].
  - destruct (IH self w Hl) as [self' ->]. by exists self'.
  - destruct (Hparse first eq_refl) as [e He]. cbv zeta. rewrite He.
    edestruct IH as [self' ->]; [exact Hl|]. exists self'.
    cbn [sink stdout]. by rewrite <- app_assoc.
Qed.

(** X9.  A document that cannot be parsed costs its item one error and the loop
    goes on: when no document of the project can be parsed, [validate_mets]
    returns with one error for each item that has an xml file, in the order
    of the items. *)
Theorem validate_mets_unparsable self w :
  Forall (fun it =>
            ∃ xml, i_files it !! lit "xml" = Some xml
                   ∧ ∀ first, head xml = Some first →
                       ∃ e, etree_parse (os_path_join (i_path it) first) = inl e)
         (items (v_project self)) →
  ∃ self',
    validate_mets dateparser_parse repr etree_parse self w
    = (Return self',
       World (sink w ++ (items (v_project self) ≫= unparsable)) (stdout w)).
Proof. apply validate_items_unparsable. Qed.

(** X10.  What a validator raises is not caught by the loop: when the body raises
    for one item, [validate_mets] raises the same from the world that the
    body left, and the items after it are not looked at. *)
Theorem validate_mets_aborts self before it after self1 w w1 e w2 :
  items (v_project self) = before ++ it :: after →
  for_each before self (validate_item dateparser_parse repr etree_parse) w
  = (Return self1, w1) →
  validate_item dateparser_parse repr etree_parse it self1 w1 = (Raise e, w2) →
  validate_mets dateparser_parse repr etree_parse self w = (Raise e, w2).
Proof.
  intros Hitems Hbefore Hit. unfold validate_mets.
  rewrite Hitems, for_each_app. unfold bind at 1. rewrite Hbefore.
  cbn [for_each]. unfold bind. by rewrite Hit.
Qed.

End Driver.

(** ** Errors and warnings *)

Section Recording.

Context {date : Type} `{EqDecision date}.
Variable dateparser_parse : str → option date.
Variable repr : str → str.
Variable P : finding → Prop.

Lemma recording_ret {A} (a : A) : recording P (ret a).
Proof. intros w. exists []. by rewrite app_nil_r. Qed.

Lemma recording_raise {A} e : recording P (raise e : M A).
Proof. intros w. exists []. by rewrite app_nil_r. Qed.

Lemma recording_print line : recording P (print line).
Proof. intros w. exists []. by rewrite app_nil_r. Qed.

Lemma recording_bind {A B} (m : M A) (k : A → M B) :
  recording P m → (∀ a, recording P (k a)) → recording P (bind m k).
Proof.
  intros Hm Hk w. destruct (Hm w) as (new & Hw & Hnew).
  unfold bind. destruct (m w) as [[a|e] w1]; cbn [snd] in *.
  - destruct (Hk a w1) as (new' & Hw' & Hnew').
    exists (new ++ new'). rewrite Hw', Hw, app_assoc.
    split; [done|by apply Forall_app].
  - by exists new.
Qed.

Lemma recording_error path item message :
  P (Finding Error path item message) → recording P (error path item message).
Proof. intros HP w. eexists [_]. split; [done|by repeat constructor]. Qed.

Lemma recording_warn path item message :
  P (Finding Warning path item message) → recording P (warn path item message).
Proof. intros HP w. eexists [_]. split; [done|by repeat constructor]. Qed.

Lemma recording_lift {A} (r : exn + A) : recording P (lift r).
Proof. destruct r; [apply recording_raise|apply recording_ret]. Qed.

Lemma recording_for_each {A B} (l : list A) (acc : B) (body : A → B → M B) :
  (∀ x acc, recording P (body x acc)) → recording P (for_each l acc body).
Proof.
  intros Hbody. revert acc.
  induction l as [|x l IH]; intros acc; [apply recording_ret|].
  cbn [for_each]. apply recording_bind; auto.
Qed.

Lemma recording_the {A} (x : option A) : recording P (the x).
Proof. destruct x; [apply recording_ret|apply recording_raise]. Qed.

Lemma recording_index {A} (l : list A) i : recording P (index l i).
Proof.
  unfold index. destruct (l !! i); [apply recording_ret|apply recording_raise].
Qed.

Lemma recording_getitem {V} (d : gmap str V) key : recording P (getitem d key).
Proof.
  unfold getitem.
  destruct (d !! lit key); [apply recording_ret|apply recording_raise].
Qed.

(** Every error satisfies [P], and so does each of the four warnings. *)
Hypothesis errors_in : ∀ path item message, P (Finding Error path item message).
Hypothesis warnings_in :
  ∀ path item message,
    message ∈ metadata_warnings → P (Finding Warning path item message).

Ltac recording_step :=
  first
    [ apply recording_ret
    | apply recording_raise
    | apply recording_print
    | apply recording_lift
    | apply recording_error; apply errors_in
    | apply recording_warn; apply warnings_in; compute_done
    | apply recording_the
    | apply recording_index
    | apply recording_getitem
    | apply recording_for_each; intros ? ?
    | apply recording_bind; [|intros ?]
    | match goal with
      | |- recording _ (match ?x with _ => _ end) => destruct x
      | |- recording _ ((match ?x with _ => _ end) _) => destruct x
      end
    | progress cbv beta zeta ].

Lemma recording_check_tag_text self tag_ argument value :
  recording P (check_tag_text self tag_ argument value).
Proof. unfold check_tag_text. repeat recording_step. Qed.

Lemma recording_check_tag_attrib self tag_ attribute argument value :
  recording P (check_tag_attrib self tag_ attribute argument value).
Proof.
  unfold check_tag_attrib, check_tag_attrib_exists, check_tag_attrib_equals,
    sys_exit.
  repeat recording_step.
Qed.

Lemma recording_check_element_exists self p :
  recording P (check_element_exists self p).
Proof. unfold check_element_exists, get_tree. repeat recording_step. Qed.

Lemma recording_check_subelements_exist self e p expected :
  recording P (check_subelements_exist self e p expected).
Proof. unfold check_subelements_exist. repeat recording_step. Qed.

Lemma recording_check_subelement_exists self e p :
  recording P (check_subelement_exists self e p).
Proof. unfold check_subelement_exists. repeat recording_step. Qed.

Lemma recording_check_dates self metadata_date mets_date :
  recording P (check_dates dateparser_parse self metadata_date mets_date).
Proof. unfold check_dates. repeat recording_step. Qed.

Ltac recording_call :=
  first
    [ apply recording_check_tag_text
    | apply recording_check_tag_attrib
    | apply recording_check_element_exists
    | apply recording_check_subelements_exist
    | apply recording_check_subelement_exists
    | apply recording_check_dates
    | recording_step ].

Lemma recording_validate_root_element self :
  recording P (validate_root_element self).
Proof. unfold validate_root_element. repeat recording_call. Qed.

Lemma recording_validate_mets_header self :
  recording P (validate_mets_header self).
Proof. unfold validate_mets_header, check_agent. repeat recording_call. Qed.

Lemma recording_validate_descriptive_metadata self :
  recording P (validate_descriptive_metadata dateparser_parse self).
Proof. unfold validate_descriptive_metadata. repeat recording_call. Qed.

Lemma recording_validate_administrative_metadata self :
  recording P (validate_administrative_metadata self).
Proof. unfold validate_administrative_metadata. repeat recording_call. Qed.

Lemma recording_validate_file_section self :
  recording P (validate_file_section repr self).
Proof. unfold validate_file_section. repeat recording_call. Qed.

Lemma recording_validate_structural_map_section self :
  recording P (validate_structural_map_section repr self).
Proof.
  unfold validate_structural_map_section, file_id_of. repeat recording_call.
Qed.

End Recording.

(** X22.  The validators of the root, the header and the administrative
    metadata never warn: whatever they add to the findings is an error. *)
Theorem document_validators_never_warn self :
  let errors_only (m : M unit) := recording (fun f => f_severity f = Error) m in
  errors_only (validate_root_element self)
  ∧ errors_only (validate_mets_header self)
  ∧ errors_only (validate_administrative_metadata self).
Proof.
  intros errors_only. split; [|split].
  - by apply recording_validate_root_element.
  - by apply recording_validate_mets_header.
  - by apply recording_validate_administrative_metadata.
Qed.

(** X23.  The validators of the file section and of the structural map
    never warn either. *)
Theorem file_validators_never_warn repr self :
  let errors_only (m : M unit) := recording (fun f => f_severity f = Error) m in
  errors_only (validate_file_section repr self)
  ∧ errors_only (validate_structural_map_section repr self).
Proof.
  intros errors_only. split.
  - by apply recording_validate_file_section.
  - by apply recording_validate_structural_map_section.
Qed.

(** X24.  The warnings of the validator of the descriptive metadata are
    about the metadata export only: each is one of the four messages that
    tell of an item without metadata, or without a title, a collection
    title or a date in it. *)
Theorem descriptive_metadata_warnings {date} `{EqDecision date}
    (dateparser_parse : str → option date) self :
  recording
    (fun f => f_severity f = Warning → f_message f ∈ metadata_warnings)
    (validate_descriptive_metadata dateparser_parse self).
Proof.
  apply recording_validate_descriptive_metadata.
  - by intros path item message.
  - by intros path item message Hin _.
Qed.

(** ** The further properties on the examples *)

Lemma validate_mets_without_xml_witness :
  let self := project_validator (Project [item_without_xml; item_without_xml] ∅) in
  validate_mets parse_no_date repr_quoted parse_missing_file self (World [] [])
  = (Return self, World [] []).
Proof.
  apply validate_mets_without_xml. by repeat constructor.
Defined.

Lemma validate_mets_unparsable_witness :
  ∃ self',
    validate_mets parse_no_date repr_quoted parse_missing_file
      (project_validator example_project) (World [] [])
    = (Return self',
       World (replicate 2
                (Finding Error (lit "/project/85429-SR-1/mets.xml")
                   (lit "85429-SR-1") (lit "mets xml is not valid"))) []).
Proof.
  apply (validate_mets_unparsable parse_no_date repr_quoted parse_missing_file
           (project_validator example_project) (World [] [])).
  repeat constructor; eexists; (split; [reflexivity|]);
    intros first _; by exists OSError.
Defined.

Lemma validate_mets_aborts_witness :
  ∃ w,
    validate_mets parse_no_date repr_quoted parse_fptr_without_fileid
      (project_validator example_project) (World [] [])
    = (Raise AttributeError, w)
    ∧ length (sink w) = 12%nat.
Proof.
  eexists. split.
  - apply (validate_mets_aborts parse_no_date repr_quoted
             parse_fptr_without_fileid (project_validator example_project)
             [] example_item [item_without_xml; example_item]
             (project_validator example_project) (World [] []) (World [] []));
      [reflexivity|reflexivity|].
    vm_compute. reflexivity.
  - reflexivity.
Defined.

Lemma validate_root_element_silent_witness :
  root_conforms (example_validator (conforming_root [])).
Proof.
  apply (validate_root_element_silent _ (World [] [])). by vm_compute.
Defined.

Lemma validate_mets_header_silent_witness :
  header_conforms (example_validator (conforming_root [conforming_header])).
Proof.
  apply (validate_mets_header_silent _ (World [] [])). by vm_compute.
Defined.

Lemma validate_file_section_silent_witness :
  file_section_conforms
    (example_validator (conforming_root [conforming_file_section])).
Proof.
  apply (validate_file_section_silent repr_quoted _ (World [] [])).
  by vm_compute.
Defined.

Lemma validate_structural_map_section_silent_witness :
  struct_map_conforms
    (example_validator (conforming_root [conforming_struct_map])).
Proof.
  apply (validate_structural_map_section_silent repr_quoted _ (World [] [])).
  by vm_compute.
Defined.

Lemma validate_administrative_metadata_silent_witness :
  administrative_metadata_conforms conforming_validator.
Proof.
  apply (validate_administrative_metadata_silent _ (World [] [])).
  by vm_compute.
Defined.

Lemma validate_descriptive_metadata_silent_witness :
  descriptive_metadata_conforms parse_year conforming_validator.
Proof.
  apply (validate_descriptive_metadata_silent parse_year _ (World [] [])).
  by vm_compute.
Defined.

Lemma run_validators_silent_witness :
  validate_root_element conforming_validator (World [] [])
  = (Return tt, World [] [])
  ∧ validate_structural_map_section repr_quoted conforming_validator
      (World [] [])
    = (Return tt, World [] []).
Proof.
  destruct (proj1 (run_validators_silent parse_year repr_quoted
                     conforming_validator (World [] [])))
    as (Hroot & _ & _ & _ & _ & Hmap); [by vm_compute|].
  by split.
Defined.

Lemma exists_flag_agrees_witness :
  let dmd_sec := elem "dmdSec" [] [elem "mdWrap" [] []] in
  (true = true ↔ is_Some (Some dmd_sec))
  ∧ (true = true → World [] [] = World [] []).
Proof.
  intros dmd_sec.
  apply (exists_flag_agrees (example_validator doc_one_dmd_sec)
           (Path Absolute [mets_ "mets"; mets_ "dmdSec"]) dmd_sec
           (Path Relative []) (Some dmd_sec) true (World [] []) (World [] [])).
  left. by vm_compute.
Defined.

Lemma validate_structural_map_section_missing_fileid_witness :
  validate_structural_map_section repr_quoted
    (example_validator
       (struct_map_doc [fptr "mdp.track01.wav"; elem "fptr" [] []]))
    (World [] [])
  = (Raise AttributeError, World [] []).
Proof.
  eapply validate_structural_map_section_missing_fileid;
    try reflexivity.
  cbn. right. left.
Defined.

Lemma validate_file_section_missing_id_witness :
  (validate_file_section repr_quoted (example_validator doc_file_grp_without_id)
     (World [] [])).1
  = Raise TypeError.
Proof.
  eapply validate_file_section_missing_id; try reflexivity. by left.
Defined.
